(** * Kollektiv document ingestion: the chunking pipeline

    A shallow embedding of [src/document_ingestion/processing/chunking.py]:
    the heading collector, the token-budget splitter, the completeness
    validator, the semaphore-bounded summary generator and the size histogram
    of [main], followed by the properties established about them.

    Python [str] values are modelled as [string]; a character is an [ascii]
    (code points below 256).  Python [int] lengths and counters are [nat],
    the configurable token budget is a [Z]. *)

From Stdlib Require Import ZArith Lia Bool Arith Ascii DecimalString.
From stdpp Require Import base list strings.

#[local] Unset Default Proof Using.

(** ** Python string primitives used by the pipeline *)

Module PyStr.

(** [str.isspace] on one character, for the code points an [ascii] holds:
    TAB..CR, FS..US, SPACE, NEL and NBSP. *)
Definition is_space (c : ascii) : bool :=
  let n := Ascii.N_of_ascii c in
  ((9 <=? n) && (n <=? 13) || (28 <=? n) && (n <=? 32)
   || (n =? 133) || (n =? 160))%N.

(** [s.lstrip()] *)
Fixpoint lstrip (s : string) : string :=
  match s with
  | EmptyString => EmptyString
  | String c r => if is_space c then lstrip r else s
  end.

(** [s.rstrip()] *)
Fixpoint rstrip (s : string) : string :=
  match s with
  | EmptyString => EmptyString
  | String c r =>
      match rstrip r with
      | EmptyString => if is_space c then EmptyString else String c EmptyString
      | r' => String c r'
      end
  end.

(** [s.strip()] *)
Definition strip (s : string) : string := rstrip (lstrip s).

(** Truthiness of a string: [if s:] holds when [s] is not empty. *)
Definition truthy (s : string) : bool :=
  match s with EmptyString => false | String _ _ => true end.

(** [s.split('. ')]: the pieces between the left-to-right, non-overlapping
    occurrences of the two-character delimiter.  Never returns [[]]. *)
Fixpoint split_dot_space (s : string) : list string :=
  match s with
  | EmptyString => [EmptyString]
  | String c r =>
      let keep :=
        match split_dot_space r with
        | x :: xs => String c x :: xs
        | [] => [String c EmptyString]
        end in
      match r with
      | String d r' =>
          if (Ascii.eqb c "."%char && Ascii.eqb d " "%char)%bool
          then EmptyString :: split_dot_space r'
          else keep
      | EmptyString => keep
      end
  end.

(** [sep.join(parts)] *)
Fixpoint join (sep : string) (parts : list string) : string :=
  match parts with
  | [] => EmptyString
  | [x] => x
  | x :: rest => x +:+ sep +:+ join sep rest
  end.

(** [''.join(parts)] *)
Definition concat (parts : list string) : string :=
  foldr String.append EmptyString parts.

(** [str(n)] for a non-negative [int]. *)
Definition of_nat (n : nat) : string :=
  NilEmpty.string_of_uint (Nat.to_uint n).

(** [str(x)] inside an f-string for a value that is a string or [None]. *)
Definition of_option (x : option string) : string :=
  match x with Some s => s | None => "None" end.

End PyStr.

(** ** Data model *)

(** A child of the parsed tree's root, as the tree processor sees it:
    [element.tag], [element.text] (which ElementTree leaves [None] when the
    element starts with a child), and the result of
    [etree.tostring(element, encoding='unicode')]. *)
Record Element := {
  tag : string;
  text : option string;
  serialized : string
}.

(** The dict built by [HeadingCollector.run] for one h1/h2 heading. *)
Module Seg.
Record t := {
  main_heading : option string;
  content : string;
  level : nat
}.
End Seg.

(** The dict built by [ChunkProcessor] for one output chunk. *)
Module Chunk.
Record t := {
  chunk_id : string;
  source_url : string;
  main_heading : option string;
  content : string;
  summary : string
}.

(** [chunk['summary'] = s] *)
Definition set_summary (s : string) (c : t) : t :=
  {| chunk_id := chunk_id c; source_url := source_url c;
     main_heading := main_heading c; content := content c;
     summary := s |}.
End Chunk.

(** ** HeadingCollector *)

Module HeadingCollector.

(** The instance attributes set by [__init__]. *)
Record t := {
  chunks : list Seg.t;
  current_chunk : option Seg.t;
  h1_count : nat;
  h2_count : nat;
  h3_count : nat
}.

Definition init : t :=
  {| chunks := []; current_chunk := None;
     h1_count := 0; h2_count := 0; h3_count := 0 |}.

Definition is_h1h2 (e : Element) : bool :=
  String.eqb (tag e) "h1" || String.eqb (tag e) "h2".

(** [if self.current_chunk: self.chunks.append(self.current_chunk)].
    The open segment is a dict with three keys, hence truthy whenever it
    is not [None]. *)
Definition flush (self : t) : list Seg.t :=
  match current_chunk self with
  | Some c => chunks self ++ [c]
  | None => chunks self
  end.

(** [self.current_chunk['content'] += tostring(element)], guarded by
    [self.current_chunk is not None]. *)
Definition append_content (self : t) (e : Element) : option Seg.t :=
  match current_chunk self with
  | Some c =>
      Some {| Seg.main_heading := Seg.main_heading c;
              Seg.content := Seg.content c +:+ serialized e;
              Seg.level := Seg.level c |}
  | None => None
  end.

(** One iteration of the loop body of [run]. *)
Definition run_element (self : t) (e : Element) : t :=
  if is_h1h2 e then
    let is1 := String.eqb (tag e) "h1" in
    {| chunks := flush self;
       current_chunk :=
         Some {| Seg.main_heading := text e;
                 Seg.content := "";
                 Seg.level := if is1 then 1 else 2 |};
       h1_count := if is1 then S (h1_count self) else h1_count self;
       h2_count := if is1 then h2_count self else S (h2_count self);
       h3_count := h3_count self |}
  else if String.eqb (tag e) "h3" then
    {| chunks := chunks self;
       current_chunk := append_content self e;
       h1_count := h1_count self;
       h2_count := h2_count self;
       h3_count := S (h3_count self) |}
  else
    {| chunks := chunks self;
       current_chunk := append_content self e;
       h1_count := h1_count self;
       h2_count := h2_count self;
       h3_count := h3_count self |}.

(** The [for element in root] loop. *)
Definition walk (self : t) (root : list Element) : t :=
  fold_left run_element root self.

(** [run]: the loop, then the final flush of the open segment.  The
    attribute [current_chunk] keeps its value after that flush. *)
Definition run (self : t) (root : list Element) : t :=
  let s := walk self root in
  {| chunks := flush s;
     current_chunk := current_chunk s;
     h1_count := h1_count s;
     h2_count := h2_count s;
     h3_count := h3_count s |}.

End HeadingCollector.

(** [parse_markdown], after the external parser produced the block sequence:
    a fresh collector is registered per [markdown.Markdown] instance. *)
Definition parse_markdown (root : list Element) : list Seg.t :=
  HeadingCollector.chunks (HeadingCollector.run HeadingCollector.init root).

(** ** TokenCounter, identifiers and ChunkProcessor *)

(** [TokenCounter]: the encoder is external; [count_tokens text] stands for
    [len(self.encoder.encode(text))]. *)
Record TokenCounter := { count_tokens : string → nat }.

(** [uuid.uuid4()] is a draw from the run's randomness: the [k]-th draw of
    the run yields [draws k], and [drawn] counts the draws made so far. *)
Module Uuid.
Record t := { draws : nat → string; drawn : nat }.

(** [str(uuid.uuid4())] *)
Definition uuid4 (g : t) : string * t :=
  (draws g (drawn g), {| draws := draws g; drawn := S (drawn g) |}).
End Uuid.

Module ChunkProcessor.

(** The instance attributes set by [__init__]
    (defaults: [min_tokens = 800], [max_tokens = 1200]). *)
Record t := {
  token_counter : TokenCounter;
  min_tokens : Z;
  max_tokens : Z
}.

(** [self.token_counter.count_tokens(text) > self.max_tokens] *)
Definition over_budget (self : t) (text : string) : bool :=
  (max_tokens self <? Z.of_nat (count_tokens (token_counter self) text))%Z.

(** The body of [for sentence in sentences], on the pair
    [(splits, current_content)]. *)
Definition split_sentence (self : t) (st : list string * string)
    (sentence : string) : list string * string :=
  let '(splits, current_content) := st in
  if over_budget self (current_content +:+ sentence) then
    if PyStr.truthy current_content then
      (splits ++ [PyStr.strip current_content], sentence +:+ ". ")
    else
      (splits ++ [PyStr.strip sentence], current_content)
  else
    (splits, current_content +:+ sentence +:+ ". ").

(** The list [splits] as it stands before the final list comprehension
    of [split_large_chunk]. *)
Definition split_contents (self : t) (content : string) : list string :=
  let '(splits, current_content) :=
    fold_left (split_sentence self) (PyStr.split_dot_space content) ([], "") in
  if PyStr.truthy current_content
  then splits ++ [PyStr.strip current_content]
  else splits.

(** [f"{chunk['main_heading']} (Part {i + 1})"] *)
Definition part_heading (heading : option string) (i : nat) : string :=
  PyStr.of_option heading +:+ " (Part " +:+ PyStr.of_nat (i + 1) +:+ ")".

(** The list comprehension over [enumerate(splits)], from index [i] on;
    one identifier is drawn per element, in order. *)
Fixpoint make_parts (chunk : Chunk.t) (i : nat) (splits : list string)
    (g : Uuid.t) : list Chunk.t * Uuid.t :=
  match splits with
  | [] => ([], g)
  | split_content :: rest =>
      let '(id, g1) := Uuid.uuid4 g in
      let '(parts, g2) := make_parts chunk (S i) rest g1 in
      ({| Chunk.chunk_id := id;
          Chunk.source_url := Chunk.source_url chunk;
          Chunk.main_heading :=
            Some (part_heading (Chunk.main_heading chunk) i);
          Chunk.content := split_content;
          Chunk.summary := "" |} :: parts, g2)
  end.

Definition split_large_chunk (self : t) (chunk : Chunk.t) (g : Uuid.t)
    : list Chunk.t * Uuid.t :=
  make_parts chunk 0 (split_contents self (Chunk.content chunk)) g.

Definition process_chunk (self : t) (chunk : Seg.t) (source_url : string)
    (g : Uuid.t) : list Chunk.t * Uuid.t :=
  let '(id, g1) := Uuid.uuid4 g in
  let processed_chunk :=
    {| Chunk.chunk_id := id;
       Chunk.source_url := source_url;
       Chunk.main_heading := Seg.main_heading chunk;
       Chunk.content := PyStr.strip (Seg.content chunk);
       Chunk.summary := "" |} in
  if over_budget self (Chunk.content processed_chunk)
  then split_large_chunk self processed_chunk g1
  else ([processed_chunk], g1).

(** [for chunk in chunks: processed_chunks.extend(process_chunk(...))],
    the inner loop of [main] for one page. *)
Fixpoint process_chunks (self : t) (chunks : list Seg.t)
    (source_url : string) (g : Uuid.t) : list Chunk.t * Uuid.t :=
  match chunks with
  | [] => ([], g)
  | chunk :: rest =>
      let '(cs, g1) := process_chunk self chunk source_url g in
      let '(more, g2) := process_chunks self rest source_url g1 in
      (cs ++ more, g2)
  end.

End ChunkProcessor.

(** ** Logging *)

(** The records the pipeline hands to [logger]; the formatted message of
    each is determined by the values it carries. *)
Inductive LogRecord :=
| ErrorHeadingMismatch (original processed : nat)
| WarningLengthMismatch (original processed : nat)
| ErrorProcessingChunk (chunk_id : string)
| ErrorValidationFailed (source_url : string).

(** ** Validator *)

Module Validator.

(** The [heading_counts] dict, read at keys ['h1'] and ['h2']. *)
Record HeadingCounts := { h1 : nat; h2 : nat }.

(** How a call ends: it returns a value, or an exception leaves it.
    Either way the records logged before that point are kept. *)
Inductive Outcome :=
| Returns (logged : list LogRecord) (value : bool)
| RaisesZeroDivisionError (logged : list LogRecord).

(** [sum(len(chunk['content']) for chunk in processed_chunks)] *)
Definition content_length (processed_chunks : list Chunk.t) : nat :=
  foldr (λ chunk acc, String.length (Chunk.content chunk) + acc) 0
        processed_chunks.

(** [abs(a - b) / a > 0.05] for [a > 0], decided on the exact quotient:
    [|a - b| / a > 1/20] iff [20 * |a - b| > a]. *)
Definition exceeds_tolerance (a b : nat) : bool :=
  (Z.of_nat a <? 20 * Z.abs (Z.of_nat a - Z.of_nat b))%Z.

Definition validate_completeness (original_content : string)
    (processed_chunks : list Chunk.t) (heading_counts : HeadingCounts)
    : Outcome :=
  let original_h1h2_count := h1 heading_counts + h2 heading_counts in
  let processed_h1h2_count := length processed_chunks in
  if negb (original_h1h2_count =? processed_h1h2_count) then
    Returns [ErrorHeadingMismatch original_h1h2_count processed_h1h2_count]
            false
  else
    let original_content_length := String.length original_content in
    let processed_content_length := content_length processed_chunks in
    (* the true division raises when the divisor is 0 *)
    if original_content_length =? 0 then RaisesZeroDivisionError []
    else if exceeds_tolerance original_content_length
                              processed_content_length
    then Returns [WarningLengthMismatch original_content_length
                                        processed_content_length] true
    else Returns [] true.

End Validator.

(** ** Size histogram of [main] *)

Module Stats.

(** An end point of [size_ranges]: a number or [float('inf')]. *)
Inductive Bound := Fin (n : nat) | Inf.

Definition size_ranges : list (nat * Bound) :=
  [(0, Fin 500); (501, Fin 1000); (1001, Fin 1500); (1501, Fin 2000);
   (2001, Inf)].

(** [start <= size < end] *)
Definition in_range (start : nat) (stop : Bound) (size : nat) : bool :=
  (start <=? size) &&
  match stop with Fin e => size <? e | Inf => true end.

(** [f"{start}-{end}"] *)
Definition range_label (start : nat) (stop : Bound) : string :=
  PyStr.of_nat start +:+ "-" +:+
  match stop with Fin e => PyStr.of_nat e | Inf => "inf" end.

(** [sum(start <= size < end for size in chunk_sizes)] *)
Definition count_in_range (start : nat) (stop : Bound)
    (chunk_sizes : list nat) : nat :=
  foldr (λ size acc, (if in_range start stop size then 1 else 0) + acc) 0
        chunk_sizes.

(** The dict comprehension [size_distribution], in insertion order (the
    five labels are distinct). *)
Definition size_distribution (chunk_sizes : list nat) : list (string * nat) :=
  map (λ '(start, stop),
         (range_label start stop, count_in_range start stop chunk_sizes))
      size_ranges.

(** [chunk_sizes = [len(chunk['content']) for chunk in all_processed_chunks]] *)
Definition chunk_sizes (all_processed_chunks : list Chunk.t) : list nat :=
  map (λ chunk, String.length (Chunk.content chunk)) all_processed_chunks.

End Stats.

(** ** SummaryGenerator

    [generate_summaries] creates one coroutine per chunk and gathers them
    on one event loop.  A coroutine runs without interruption between two
    of its suspension points, so the batch is modelled as a transition
    system whose events are the resumptions of one task: passing
    [async with semaphore], the completion of the awaited
    [asyncio.to_thread(self.client.messages.create, ...)], and the end of
    [asyncio.sleep(1)]. *)

Module SummaryGenerator.

(** How the awaited call to the completion service ends, as the [try] of
    [_process_chunk] tells the cases apart. *)
Inductive Response :=
| Text (summary : string)   (* [response.content[0].text] *)
| RateLimitError
| OtherException.           (* any other [Exception] *)

(** Where the innermost activation of [_process_chunk] of a task stands. *)
Inductive Pc :=
| AtSemaphore   (* suspended in, or about to enter, [async with semaphore] *)
| InFlight      (* inside the block, awaiting the service call *)
| Backoff       (* inside the block, awaiting [asyncio.sleep(1)] *)
| Returned.     (* the task has returned its chunk *)

(** One task of the gather.  [outer] counts the enclosing activations of
    [_process_chunk] that wait at [return await self._process_chunk(...)];
    that statement is inside [async with semaphore], so each of them keeps
    the slot it acquired. *)
Record Task := {
  chunk : Chunk.t;
  outer : nat;
  pc : Pc
}.

(** [value] is the number of free slots of the [asyncio.Semaphore]. *)
Record State := {
  value : nat;
  tasks : list Task;
  logged : list LogRecord
}.

Inductive Event :=
| Acquire (i : nat)
| Resolve (i : nat) (r : Response)
| Wake (i : nat).

(** [asyncio.Semaphore(self.max_concurrent_requests)] and the coroutines
    [self._process_chunk(chunk, semaphore) for chunk in chunks]. *)
Definition init (max_concurrent_requests : nat) (chunks : list Chunk.t)
    : State :=
  {| value := max_concurrent_requests;
     tasks := map (λ c, {| chunk := c; outer := 0; pc := AtSemaphore |})
                  chunks;
     logged := [] |}.

(** The innermost activation leaves its [async with] block and returns the
    chunk; every enclosing activation then returns the same value out of
    its own block.  None of this suspends, and each exit releases a slot. *)
Definition finish (st : State) (i : nat) (t : Task) (c : Chunk.t)
    (log : list LogRecord) : State :=
  {| value := value st + 1 + outer t;
     tasks := <[i := {| chunk := c; outer := 0; pc := Returned |}]> (tasks st);
     logged := logged st ++ log |}.

Definition step (st : State) (ev : Event) : option State :=
  match ev with
  | Acquire i =>
      match tasks st !! i with
      | Some t =>
          match pc t, value st with
          | AtSemaphore, S v =>
              Some {| value := v;
                      tasks := <[i := {| chunk := chunk t; outer := outer t;
                                         pc := InFlight |}]> (tasks st);
                      logged := logged st |}
          | _, _ => None
          end
      | None => None
      end
  | Resolve i r =>
      match tasks st !! i with
      | Some t =>
          match pc t with
          | InFlight =>
              match r with
              | Text s =>
                  Some (finish st i t (Chunk.set_summary s (chunk t)) [])
              | RateLimitError =>
                  Some {| value := value st;
                          tasks := <[i := {| chunk := chunk t;
                                             outer := outer t;
                                             pc := Backoff |}]> (tasks st);
                          logged := logged st |}
              | OtherException =>
                  Some (finish st i t (Chunk.set_summary "" (chunk t))
                          [ErrorProcessingChunk (Chunk.chunk_id (chunk t))])
              end
          | _ => None
          end
      | None => None
      end
  | Wake i =>
      match tasks st !! i with
      | Some t =>
          match pc t with
          | Backoff =>
              (* [return await self._process_chunk(chunk, semaphore)] *)
              Some {| value := value st;
                      tasks := <[i := {| chunk := chunk t;
                                         outer := S (outer t);
                                         pc := AtSemaphore |}]> (tasks st);
                      logged := logged st |}
          | _ => None
          end
      | None => None
      end
  end.

(** A run: the events in the order the event loop delivers them. *)
Fixpoint steps (st : State) (evs : list Event) : option State :=
  match evs with
  | [] => Some st
  | ev :: rest =>
      match step st ev with
      | Some st' => steps st' rest
      | None => None
      end
  end.

Definition is_returned (t : Task) : bool :=
  match pc t with Returned => true | _ => false end.

Definition is_in_flight (t : Task) : bool :=
  match pc t with InFlight => true | _ => false end.

(** Number of service calls in flight. *)
Definition in_flight (st : State) : nat :=
  foldr (λ t acc, (if is_in_flight t then 1 else 0) + acc) 0 (tasks st).

(** Slots a task holds: one per enclosing activation, one more while its
    innermost activation is inside the block. *)
Definition held (t : Task) : nat :=
  outer t + match pc t with InFlight | Backoff => 1 | _ => 0 end.

Definition held_total (ts : list Task) : nat :=
  foldr (λ t acc, held t + acc) 0 ts.

(** What the awaited [tqdm_asyncio.gather] hands back once every task
    has returned: the chunks, in the order of the input. *)
Definition summarized_chunks (st : State) : option (list Chunk.t) :=
  if forallb is_returned (tasks st) then Some (map chunk (tasks st))
  else None.

End SummaryGenerator.

(** ** One page of [main] *)

Module Main.

(** A page of [raw_data['data']]: [page.get('markdown', '')],
    the source URL, and the block sequence [md.convert(content)] hands to
    the registered tree processor. *)
Record Page := {
  markdown : string;
  sourceURL : string;
  root : list Element
}.

(** The collector after [md.convert(content)]. *)
Definition heading_collector (page : Page) : HeadingCollector.t :=
  HeadingCollector.run HeadingCollector.init (root page).

(** [processed_chunks] of the page. *)
Definition processed_chunks (chunk_processor : ChunkProcessor.t)
    (page : Page) (g : Uuid.t) : list Chunk.t * Uuid.t :=
  ChunkProcessor.process_chunks chunk_processor
    (HeadingCollector.chunks (heading_collector page)) (sourceURL page) g.

(** The call [Validator.validate_completeness(content, summarized_chunks,
    {'h1': ..., 'h2': ...})] of the page. *)
Definition validate (page : Page) (summarized_chunks : list Chunk.t)
    : Validator.Outcome :=
  Validator.validate_completeness (markdown page) summarized_chunks
    {| Validator.h1 := HeadingCollector.h1_count (heading_collector page);
       Validator.h2 := HeadingCollector.h2_count (heading_collector page) |}.

End Main.

(** ** Vocabulary of the properties *)

Section SegmentationVocabulary.
Import HeadingCollector.

(** Number of open segments: one when [current_chunk] is set. *)
Definition open_count (self : t) : nat :=
  match current_chunk self with Some _ => 1 | None => 0 end.

(** The loop invariant of [run]: closed plus open segments account for
    the h1/h2 headings counted so far. *)
Definition balanced (self : t) : Prop :=
  length (chunks self) + open_count self = h1_count self + h2_count self.

(** Two collectors that agree on everything but the h3 counter. *)
Definition same_segments (s1 s2 : t) : Prop :=
  chunks s1 = chunks s2 ∧ current_chunk s1 = current_chunk s2 ∧
  h1_count s1 = h1_count s2 ∧ h2_count s1 = h2_count s2.

(** The scenario "# A / text1 / ## B / text2 / ### C / text3" preceded by
    a stray paragraph. *)
Definition sample_root : list Element :=
  [ {| tag := "p"; text := Some "intro"; serialized := "<p>intro</p>" |};
    {| tag := "h1"; text := Some "A"; serialized := "<h1>A</h1>" |};
    {| tag := "p"; text := Some "text1"; serialized := "<p>text1</p>" |};
    {| tag := "h2"; text := Some "B"; serialized := "<h2>B</h2>" |};
    {| tag := "p"; text := Some "text2"; serialized := "<p>text2</p>" |};
    {| tag := "h3"; text := Some "C"; serialized := "<h3>C</h3>" |};
    {| tag := "p"; text := Some "text3"; serialized := "<p>text3</p>" |} ].

End SegmentationVocabulary.

Section SplitterVocabulary.
Import ChunkProcessor.

(** How [split_large_chunk] groups the sentence units: a unit emitted on
    its own because it is over budget with an empty buffer, or the units
    of one flushed buffer. *)
Inductive Group :=
| Lone (u : string)
| Buffer (us : list string).

Definition units (gr : Group) : list string :=
  match gr with Lone u => [u] | Buffer us => us end.

(** The buffer [current_content] that holds the units [us]: each unit is
    followed by the delimiter. *)
Definition buffer_text (us : list string) : string :=
  PyStr.concat (map (λ u, u +:+ ". ") us).

(** The split emitted for a group. *)
Definition render (gr : Group) : string :=
  match gr with
  | Lone u => PyStr.strip u
  | Buffer us => PyStr.strip (buffer_text us)
  end.

(** The loop of [split_large_chunk], keeping the units instead of the
    text: the pair is (groups emitted, units in the buffer). *)
Definition group_sentence (self : t) (st : list Group * list string)
    (sentence : string) : list Group * list string :=
  let '(groups, current) := st in
  if over_budget self (buffer_text current +:+ sentence) then
    match current with
    | _ :: _ => (groups ++ [Buffer current], [sentence])
    | [] => (groups ++ [Lone sentence], [])
    end
  else (groups, current ++ [sentence]).

Definition close_groups (st : list Group * list string) : list Group :=
  match st.2 with
  | _ :: _ => st.1 ++ [Buffer st.2]
  | [] => st.1
  end.

Definition split_groups (self : t) (content : string) : list Group :=
  close_groups
    (fold_left (group_sentence self) (PyStr.split_dot_space content) ([], [])).

(** A string has ink when one of its characters is not whitespace. *)
Fixpoint has_ink (s : string) : bool :=
  match s with
  | EmptyString => false
  | String c r => negb (PyStr.is_space c) || has_ink r
  end.

(** A stand-in encoder for the examples: one token per character. *)
Definition char_counter : TokenCounter := {| count_tokens := String.length |}.

(** [ChunkProcessor(char_counter, max_tokens=budget)] *)
Definition char_processor (budget : Z) : t :=
  {| token_counter := char_counter; min_tokens := 800; max_tokens := budget |}.

(** Identifiers for the examples: the [k]-th draw is the decimal [k]. *)
Definition counting_ids : Uuid.t := {| Uuid.draws := PyStr.of_nat; Uuid.drawn := 0 |}.

(** [chunk] as [process_chunk] hands it to [split_large_chunk]. *)
Definition chunk_of (heading content : string) : Chunk.t :=
  {| Chunk.chunk_id := "0"; Chunk.source_url := "https://example.org/doc";
     Chunk.main_heading := Some heading; Chunk.content := content;
     Chunk.summary := "" |}.

End SplitterVocabulary.

Section SplitterInvariants.
Import ChunkProcessor.

(** The units seen so far, in order: those of the emitted groups, then
    those still in the buffer. *)
Definition seen (st : list Group * list string) : list string :=
  concat (map units st.1) ++ st.2.

(** What the loop guarantees of an emitted group: a lone unit was over
    budget on its own, a flushed buffer held at least one unit. *)
Definition group_ok (self : t) (gr : Group) : Prop :=
  match gr with
  | Lone u => over_budget self u = true
  | Buffer us => us ≠ []
  end.

End SplitterInvariants.

Section SummaryVocabulary.
Import SummaryGenerator.

(** The task an event resumes. *)
Definition event_task (ev : Event) : nat :=
  match ev with Acquire i | Resolve i _ | Wake i => i end.

(** Two chunks that agree on every field but [summary]. *)
Definition same_but_summary (c1 c2 : Chunk.t) : Prop :=
  Chunk.chunk_id c1 = Chunk.chunk_id c2 ∧
  Chunk.source_url c1 = Chunk.source_url c2 ∧
  Chunk.main_heading c1 = Chunk.main_heading c2 ∧
  Chunk.content c1 = Chunk.content c2.

(** The slots are accounted for: the free ones plus the held ones are the
    [max_concurrent_requests] the semaphore was created with. *)
Definition slots_accounted (limit : nat) (st : State) : Prop :=
  value st + held_total (tasks st) = limit.

(** Every task still carries the chunk it was created for, up to its
    summary. *)
Definition carries (chunks : list Chunk.t) (st : State) : Prop :=
  Forall2 (λ c t, same_but_summary c (chunk t)) chunks (tasks st).

(** The chunk a task returns once its call has ended with [r], when [r]
    is not the rate limit. *)
Definition outcome (r : Response) (c : Chunk.t) : Chunk.t :=
  match r with
  | Text s => Chunk.set_summary s c
  | _ => Chunk.set_summary "" c
  end.

(** The run that resumes the tasks one after the other, from task [k]
    on: each passes the semaphore and then gets its response. *)
Fixpoint one_by_one (k : nat) (responses : list Response) : list Event :=
  match responses with
  | [] => []
  | r :: rest => Acquire k :: Resolve k r :: one_by_one (S k) rest
  end.

End SummaryVocabulary.

Section ValidationVocabulary.

(** A page with one h1 heading whose paragraph is over a budget of 10
    one-character tokens. *)
Definition split_page : Main.Page :=
  {| Main.markdown := "# A
aaa. bbb";
     Main.sourceURL := "https://example.org/doc";
     Main.root :=
       [ {| tag := "h1"; text := Some "A"; serialized := "<h1>A</h1>" |};
         {| tag := "p"; text := Some "aaa. bbb";
            serialized := "<p>aaa. bbb</p>" |} ] |}.

(** A page without markdown: [page.get('markdown', '')] is [''] and the
    parsed tree has no blocks. *)
Definition empty_page : Main.Page :=
  {| Main.markdown := ""; Main.sourceURL := "https://example.org/empty";
     Main.root := [] |}.

(** The sizes at which one range of the histogram ends. *)
Definition range_ends : list nat := [500; 1000; 1500; 2000].

(** In how many ranges of the histogram a size is counted. *)
Definition times_counted (size : nat) : nat :=
  foldr (λ '(_, count) acc, count + acc) 0 (Stats.size_distribution [size]).

End ValidationVocabulary.


(** ** Vocabulary of the further properties *)

Section SectionVocabulary.
Import HeadingCollector.

(** The segment a level-1/2 heading [h] opens when the blocks [body] follow
    it up to the next level-1/2 heading. *)
Definition segment_of (h : Element) (body : list Element) : Seg.t :=
  {| Seg.main_heading := text h;
     Seg.content := PyStr.concat (map serialized body);
     Seg.level := if String.eqb (tag h) "h1" then 1 else 2 |}.

(** A block sequence that is empty or begins with a level-1/2 heading. *)
Definition starts_section (root : list Element) : bool :=
  match root with
  | [] => true
  | e :: _ => is_h1h2 e
  end.

(** Number of blocks of [root] with the tag [name]. *)
Definition count_tag (name : string) (root : list Element) : nat :=
  length (List.filter (λ e, String.eqb (tag e) name) root).

(** One collector is the other with the segments [p] emitted before. *)
Definition prefixed (p : list Seg.t) (s1 s2 : t) : Prop :=
  chunks s1 = p ++ chunks s2 ∧ current_chunk s1 = current_chunk s2.

End SectionVocabulary.

Section PartsVocabulary.
Import ChunkProcessor.

(** The comparison the loop of [split_large_chunk] made before it let the
    last unit of a buffer in: the buffer so far plus that unit, without
    the delimiter that follows it, was within the budget.  A buffer of one
    unit was started without comparison. *)
Definition admitted (self : t) (us : list string) : Prop :=
  ∀ us' u, us = us' ++ [u] → us' ≠ [] →
           over_budget self (buffer_text us' +:+ u) = false.

(** What the loop guarantees of an emitted group. *)
Definition group_checked (self : t) (gr : Group) : Prop :=
  match gr with
  | Lone u => over_budget self u = true
  | Buffer us => us ≠ [] ∧ admitted self us
  end.

End PartsVocabulary.

Section RetryVocabulary.
Import SummaryGenerator.


(** A task that has returned has left every activation. *)
Definition unwound (st : State) : Prop :=
  Forall (λ t, pc t = Returned → outer t = 0) (tasks st).

End RetryVocabulary.

Section HistogramVocabulary.

(** The sum of the counts of the histogram: how many times the sizes were
    counted in all ranges together. *)
Definition histogram_total (chunk_sizes : list nat) : nat :=
  foldr (λ '(_, count) acc, count + acc) 0 (Stats.size_distribution chunk_sizes).

End HistogramVocabulary.

(** ** ClaudeAssistant: the conversation history

    [src/generation/claude_assistant.py].  The methods are modelled by their
    bodies; each is wrapped by the decorator [error_handler(logger)] of
    [src.utils.decorators], which is applied around these bodies. *)

Module ClaudeAssistant.

(** An entry of [self.conversation_history]: [{"role": ..., "content": ...}]. *)
Record Message := { role : string; content : string }.

(** The slice [l[start:]] of a list, for any integer [start]: a negative
    [start] counts from the end, and both ends are clamped. *)
Definition slice_from {A} (start : Z) (l : list A) : list A :=
  let len := Z.of_nat (length l) in
  let first := if (start <? 0)%Z then Z.max 0 (start + len) else Z.min start len in
  drop (Z.to_nat first) l.

(** [get_recent_context]: [self.conversation_history[-n_messages:]]
    (default [n_messages = 6]). *)
Definition get_recent_context (conversation_history : list Message)
    (n_messages : Z) : list Message :=
  slice_from (- n_messages) conversation_history.

(** [update_conversation_history]: the two [append]s. *)
Definition update_conversation_history (conversation_history : list Message)
    (user_input assistant_response : string) : list Message :=
  (conversation_history ++ [{| role := "user"; content := user_input |}])
  ++ [{| role := "assistant"; content := assistant_response |}].

(** The history after the exchanges [(user_input, assistant_response)],
    in order, recorded from the history [h]. *)
Definition record_exchanges (h : list Message)
    (exchanges : list (string * string)) : list Message :=
  fold_left (λ h '(u, a), update_conversation_history h u a) exchanges h.

(** [s[:n]] for a string and [n >= 0]. *)
Fixpoint first_chars (n : nat) (s : string) : string :=
  match n, s with
  | S n', String c r => String c (first_chars n' r)
  | _, _ => EmptyString
  end.

(** The separator of [content_sample]: two line feeds. *)
Definition blank_line : string :=
  String (Ascii.ascii_of_nat 10) (String (Ascii.ascii_of_nat 10) EmptyString).

(** [content_sample] of [generate_document_summary], from the texts
    [chunk['data']['text']] of the chunks: the first 500 characters of
    each of the first five chunks, joined by a blank line. *)
Definition content_sample (texts : list string) : string :=
  PyStr.join blank_line (map (first_chars 500) (take 5 texts)).

End ClaudeAssistant.

Section HistoryVocabulary.
Import ClaudeAssistant.

(** The messages of a list of exchanges: user input, then response. *)
Definition messages_of (exchanges : list (string * string)) : list Message :=
  flat_map (λ '(u, a), [{| role := "user"; content := u |};
                        {| role := "assistant"; content := a |}]) exchanges.

End HistoryVocabulary.

(** * Properties *)

(** ** Heading segmentation *)

Section Segmentation.
Import HeadingCollector.


Lemma run_element_balanced self e :
  balanced self → balanced (run_element self e).
Proof.
  unfold balanced, run_element, open_count, flush, append_content.
  intros Hb.
  destruct (is_h1h2 e); [| destruct (String.eqb (tag e) "h3")]; simpl.
  - destruct (current_chunk self), (String.eqb (tag e) "h1");
      rewrite ?length_app; simpl in *; lia.
  - destruct (current_chunk self); simpl in *; lia.
  - destruct (current_chunk self); simpl in *; lia.
Qed.

Lemma walk_balanced root : ∀ self, balanced self → balanced (walk self root).
Proof.
  unfold walk.
  induction root as [| e root IH]; intros self Hb; simpl; [done |].
  apply IH, run_element_balanced, Hb.
Qed.

Lemma flush_length self :
  length (flush self) = length (chunks self) + open_count self.
Proof.
  unfold flush, open_count.
  destruct (current_chunk self); rewrite ?length_app; simpl; lia.
Qed.


Lemma run_element_same s1 s2 e :
  same_segments s1 s2 → same_segments (run_element s1 e) (run_element s2 e).
Proof.
  intros (Hc & Ho & H1 & H2).
  unfold same_segments, run_element, flush, append_content.
  destruct (is_h1h2 e); [| destruct (String.eqb (tag e) "h3")]; simpl;
    rewrite Hc, Ho, H1, H2; done.
Qed.

Lemma walk_same root :
  ∀ s1 s2, same_segments s1 s2 → same_segments (walk s1 root) (walk s2 root).
Proof.
  unfold walk.
  induction root as [| e root IH]; intros s1 s2 Hs; simpl; [done |].
  apply IH, run_element_same, Hs.
Qed.

Lemma run_element_closed self e :
  is_h1h2 e = false → current_chunk self = None →
  same_segments (run_element self e) self.
Proof.
  intros He Ho.
  unfold same_segments, run_element, append_content.
  rewrite He, Ho.
  destruct (String.eqb (tag e) "h3"); simpl; done.
Qed.

Lemma walk_closed pre :
  ∀ self, Forall (λ b, is_h1h2 b = false) pre → current_chunk self = None →
          same_segments (walk self pre) self.
Proof.
  unfold walk.
  induction pre as [| e pre IH]; intros self Hall Ho; simpl; [done |].
  inversion Hall as [| ? ? He Hrest]; subst.
  pose proof (run_element_closed self e He Ho) as Hs.
  destruct Hs as (Hc & Ho' & H1 & H2).
  rewrite Ho in Ho'.
  destruct (IH (run_element self e) Hrest Ho') as (Hc2 & Ho2 & H12 & H22).
  unfold same_segments. rewrite Hc2, Ho2, H12, H22, Hc, Ho', H1, H2, Ho. done.
Qed.

Lemma same_segments_flush s1 s2 : same_segments s1 s2 → flush s1 = flush s2.
Proof. intros (Hc & Ho & _). unfold flush. by rewrite Hc, Ho. Qed.

(** C5: for every block sequence of one document, the closed segments
    plus the open one, if any, equal the h1 and h2 headings counted so
    far at every point of the walk, and the segments [run] emits equal
    the h1 count plus the h2 count of the same pass. *)
Theorem segments_equal_h1_plus_h2 (root : list Element) :
  balanced (walk init root) ∧
  length (chunks (run init root))
  = h1_count (run init root) + h2_count (run init root).
Proof.
  assert (Hw : balanced (walk init root)) by (apply walk_balanced; done).
  split; [exact Hw |].
  unfold run; simpl. rewrite flush_length. exact Hw.
Qed.

(** C6: a level-3 heading leaves the list of closed segments and the
    h1/h2 counters as they are and appends its serialized form to the
    open segment when there is one; the blocks before the first
    level-1/2 heading do not change the segments of the document, and a
    document without level-1/2 headings has no segments. *)
Theorem h3_folds_and_leading_blocks_drop
    (self : t) (e : Element) (pre rest : list Element)
    (Hh3 : tag e = "h3")
    (Hpre : Forall (λ b, is_h1h2 b = false) pre) :
  (chunks (run_element self e) = chunks self ∧
   current_chunk (run_element self e)
   = match current_chunk self with
     | Some c => Some {| Seg.main_heading := Seg.main_heading c;
                         Seg.content := Seg.content c +:+ serialized e;
                         Seg.level := Seg.level c |}
     | None => None
     end ∧
   h1_count (run_element self e) = h1_count self ∧
   h2_count (run_element self e) = h2_count self ∧
   h3_count (run_element self e) = S (h3_count self)) ∧
  parse_markdown (pre ++ rest) = parse_markdown rest ∧
  parse_markdown pre = [].
Proof.
  split; [| split].
  - unfold run_element, is_h1h2. rewrite Hh3. simpl. done.
  - unfold parse_markdown, run; simpl.
    apply same_segments_flush.
    unfold walk. rewrite fold_left_app.
    apply walk_same, walk_closed; done.
  - unfold parse_markdown, run; simpl.
    rewrite (same_segments_flush _ init); [done |].
    apply walk_closed; done.
Qed.


Example sample_segments :
  parse_markdown sample_root
  = [ {| Seg.main_heading := Some "A"; Seg.content := "<p>text1</p>";
         Seg.level := 1 |};
      {| Seg.main_heading := Some "B";
         Seg.content := "<p>text2</p><h3>C</h3><p>text3</p>";
         Seg.level := 2 |} ].
Proof. reflexivity. Qed.

Lemma h3_folds_and_leading_blocks_drop_witness :
  let h3 := {| tag := "h3"; text := Some "C"; serialized := "<h3>C</h3>" |} in
  let p := {| tag := "p"; text := Some "intro"; serialized := "<p>intro</p>" |} in
  tag h3 = "h3" ∧
  Forall (λ b, is_h1h2 b = false) [p; h3] ∧
  parse_markdown ([p; h3] ++ drop 1 sample_root)
  = parse_markdown (drop 1 sample_root) ∧
  parse_markdown [p; h3] = [].
Proof.
  intros h3 p.
  assert (Hh3 : tag h3 = "h3") by reflexivity.
  assert (Hpre : Forall (λ b, is_h1h2 b = false) [p; h3])
    by (repeat constructor).
  split; [exact Hh3 |]. split; [exact Hpre |].
  exact (proj2 (h3_folds_and_leading_blocks_drop
                  init h3 [p; h3] (drop 1 sample_root) Hh3 Hpre)).
Defined.

End Segmentation.

(** ** Strings *)

Section Strings.
Import PyStr.

Lemma append_cons c s t : String c s +:+ t = String c (s +:+ t).
Proof. reflexivity. Qed.

Lemma append_empty_r s : s +:+ "" = s.
Proof.
  induction s as [| c s IH]; [done |].
  by rewrite append_cons, IH.
Qed.

Lemma append_assoc s1 s2 s3 : (s1 +:+ s2) +:+ s3 = s1 +:+ s2 +:+ s3.
Proof.
  induction s1 as [| c s1 IH]; [done |].
  by rewrite !append_cons, IH.
Qed.

Lemma truthy_append s1 s2 : truthy (s1 +:+ s2) = truthy s1 || truthy s2.
Proof. destruct s1; done. Qed.

Lemma truthy_false s : truthy s = false → s = "".
Proof. destruct s; done. Qed.

Lemma has_ink_append s1 s2 : has_ink (s1 +:+ s2) = has_ink s1 || has_ink s2.
Proof.
  induction s1 as [| c s1 IH]; [done |].
  rewrite append_cons. simpl. rewrite IH. by rewrite orb_assoc.
Qed.

Lemma has_ink_lstrip s : has_ink (lstrip s) = has_ink s.
Proof.
  induction s as [| c s IH]; simpl; [done |].
  destruct (is_space c) eqn:Hc; simpl; [done | by rewrite Hc].
Qed.

Lemma truthy_rstrip s : truthy (rstrip s) = has_ink s.
Proof.
  induction s as [| c s IH]; simpl; [done |].
  destruct (rstrip s) eqn:Hr; simpl in *.
  - rewrite <- IH. destruct (is_space c); done.
  - rewrite <- IH. by rewrite orb_true_r.
Qed.

(** [s.strip()] is non-empty exactly when [s] has ink. *)
Lemma truthy_strip s : truthy (strip s) = has_ink s.
Proof. unfold strip. by rewrite truthy_rstrip, has_ink_lstrip. Qed.

Lemma strip_empty_iff s : strip s = "" ↔ has_ink s = false.
Proof.
  rewrite <- truthy_strip. split.
  - by intros ->.
  - apply truthy_false.
Qed.

Lemma split_dot_space_nonempty s : split_dot_space s ≠ [].
Proof.
  destruct s as [| c r]; simpl; [done |].
  destruct r as [| d r'].
  - destruct (split_dot_space ""); done.
  - destruct (Ascii.eqb c "." && Ascii.eqb d " "); [done |].
    destruct (split_dot_space (String d r')); done.
Qed.

Lemma join_cons_char sep c x xs :
  join sep (String c x :: xs) = String c (join sep (x :: xs)).
Proof. destruct xs; done. Qed.

Lemma split_dot_space_cons c r :
  split_dot_space (String c r)
  = match r with
    | String d r' =>
        if Ascii.eqb c "." && Ascii.eqb d " "
        then "" :: split_dot_space r'
        else match split_dot_space r with
             | x :: xs => String c x :: xs
             | [] => [String c ""]
             end
    | EmptyString =>
        match split_dot_space r with
        | x :: xs => String c x :: xs
        | [] => [String c ""]
        end
    end.
Proof. destruct r; done. Qed.

(** ['. '.join(s.split('. ')) == s] *)
Lemma join_split_dot_space s : join ". " (split_dot_space s) = s.
Proof.
  cut (join ". " (split_dot_space s) = s ∧
       ∀ c, join ". " (split_dot_space (String c s)) = String c s);
    [by intros [H _] |].
  induction s as [| d r' [IH1 IH2]].
  - split; done.
  - split; [apply IH2 |].
    intros c. rewrite split_dot_space_cons.
    destruct (Ascii.eqb c "." && Ascii.eqb d " ") eqn:Hcd.
    + apply andb_prop in Hcd as [Hc Hd].
      apply Ascii.eqb_eq in Hc, Hd. subst c d.
      pose proof (split_dot_space_nonempty r') as Hne.
      destruct (split_dot_space r') as [| x xs] eqn:Hs; [done |].
      change (join ". " ("" :: x :: xs)) with (". " +:+ join ". " (x :: xs)).
      by rewrite IH1.
    + pose proof (split_dot_space_nonempty (String d r')) as Hne.
      specialize (IH2 d).
      destruct (split_dot_space (String d r')) as [| x xs]; [done |].
      by rewrite join_cons_char, IH2.
Qed.

End Strings.

(** ** Token-budget splitting *)

Section Splitting.
Import ChunkProcessor.
Variable self : ChunkProcessor.t.

Lemma buffer_text_snoc us u :
  buffer_text (us ++ [u]) = buffer_text us +:+ u +:+ ". ".
Proof.
  unfold buffer_text, PyStr.concat.
  induction us as [| a us IH]; simpl.
  - by rewrite append_empty_r.
  - by rewrite IH, !append_assoc.
Qed.

Lemma truthy_buffer_text us :
  PyStr.truthy (buffer_text us) = match us with [] => false | _ => true end.
Proof.
  destruct us as [| u us]; [done |].
  unfold buffer_text, PyStr.concat; simpl.
  rewrite !truthy_append. simpl. by rewrite orb_true_r.
Qed.

Lemma has_ink_buffer_text us : us ≠ [] → has_ink (buffer_text us) = true.
Proof.
  destruct us as [| u us]; [done | intros _].
  unfold buffer_text, PyStr.concat; simpl.
  rewrite !has_ink_append.
  replace (has_ink ". ") with true by reflexivity.
  by rewrite orb_true_r.
Qed.

(** One iteration of the loop on text agrees with the iteration on
    units. *)
Lemma split_sentence_groups groups current s :
  split_sentence self (map render groups, buffer_text current) s
  = (map render (group_sentence self (groups, current) s).1,
     buffer_text (group_sentence self (groups, current) s).2).
Proof.
  unfold split_sentence, group_sentence.
  destruct (over_budget self (buffer_text current +:+ s)).
  - rewrite truthy_buffer_text.
    destruct current as [| u us]; simpl; rewrite map_app; simpl.
    + done.
    + unfold buffer_text at 3. unfold PyStr.concat. simpl.
      by rewrite append_empty_r.
  - simpl. by rewrite buffer_text_snoc.
Qed.

Lemma fold_split_sentence_groups us :
  ∀ groups current,
    fold_left (split_sentence self) us (map render groups, buffer_text current)
    = (map render (fold_left (group_sentence self) us (groups, current)).1,
       buffer_text (fold_left (group_sentence self) us (groups, current)).2).
Proof.
  induction us as [| u us IH]; intros groups current; cbn [fold_left];
    [done |].
  rewrite split_sentence_groups.
  destruct (group_sentence self (groups, current) u) as [groups' current'].
  apply IH.
Qed.

(** The splits are the renderings of the groups. *)
Lemma split_contents_groups content :
  split_contents self content = map render (split_groups self content).
Proof.
  unfold split_contents, split_groups, close_groups.
  pose proof (fold_split_sentence_groups
                (PyStr.split_dot_space content) [] []) as H.
  change (map render [], buffer_text []) with (@nil string, "") in H.
  rewrite H.
  destruct (fold_left (group_sentence self) _ ([], [])) as [groups current].
  simpl. rewrite truthy_buffer_text.
  destruct current; [done |].
  by rewrite map_app.
Qed.

Lemma group_sentence_seen st s :
  seen (group_sentence self st s) = seen st ++ [s].
Proof.
  destruct st as [groups current]. unfold group_sentence, seen.
  destruct (over_budget self _); [destruct current |]; simpl;
    rewrite ?map_app, ?concat_app; simpl;
    rewrite ?app_nil_r, <- ?app_assoc; done.
Qed.

Lemma fold_group_sentence_seen us :
  ∀ st, seen (fold_left (group_sentence self) us st) = seen st ++ us.
Proof.
  induction us as [| u us IH]; intros st; simpl.
  - by rewrite app_nil_r.
  - rewrite IH, group_sentence_seen. by rewrite <- app_assoc.
Qed.

Lemma close_groups_seen st : concat (map units (close_groups st)) = seen st.
Proof.
  destruct st as [groups current]. unfold close_groups, seen; simpl.
  destruct current; simpl.
  - by rewrite app_nil_r.
  - rewrite map_app, concat_app. simpl. by rewrite app_nil_r.
Qed.

(** No unit is duplicated or dropped: the groups, in order, hold exactly
    the units of the content. *)
Lemma split_groups_units content :
  concat (map units (split_groups self content))
  = PyStr.split_dot_space content.
Proof.
  unfold split_groups.
  by rewrite close_groups_seen, fold_group_sentence_seen.
Qed.

Lemma group_sentence_ok st s :
  Forall (group_ok self) st.1 →
  Forall (group_ok self) (group_sentence self st s).1.
Proof.
  destruct st as [groups current]. unfold group_sentence. simpl.
  intros Hok.
  destruct (over_budget self (buffer_text current +:+ s)) eqn:Hover;
    [| done].
  destruct current; simpl; apply Forall_app; split; try done;
    apply Forall_singleton; simpl; done.
Qed.

Lemma fold_group_sentence_ok us :
  ∀ st, Forall (group_ok self) st.1 →
        Forall (group_ok self) (fold_left (group_sentence self) us st).1.
Proof.
  induction us as [| u us IH]; intros st Hok; simpl; [done |].
  apply IH, group_sentence_ok, Hok.
Qed.

Lemma split_groups_ok content :
  Forall (group_ok self) (split_groups self content).
Proof.
  unfold split_groups, close_groups.
  pose proof (fold_group_sentence_ok
                (PyStr.split_dot_space content) ([], []) (Forall_nil_2 _)) as H.
  destruct (fold_left (group_sentence self) _ ([], [])) as [groups current].
  simpl in *. destruct current; [done |].
  apply Forall_app; split; [done |].
  apply Forall_singleton; simpl; done.
Qed.

Lemma group_ok_units gr : group_ok self gr → units gr ≠ [].
Proof. destruct gr; simpl; done. Qed.

Lemma make_parts_content chunk splits :
  ∀ i g, map Chunk.content (make_parts chunk i splits g).1 = splits.
Proof.
  induction splits as [| s splits IH]; intros i g; simpl; [done |].
  specialize (IH (S i) (Uuid.uuid4 g).2). simpl in IH.
  destruct (make_parts chunk (S i) splits _) as [parts g2].
  simpl in *. by rewrite IH.
Qed.

(** C2 (amended): the sentence units of the content are distributed
    over the emitted sub-chunks in order, none duplicated or dropped:
    there are consecutive non-empty groups of units, one per sub-chunk,
    that together are exactly [content.split('. ')] (whose ['. '.join]
    is the content), and the content of each sub-chunk is the stripped
    text of its group: the units of a flushed buffer each followed by
    ['. '], or a lone over-budget unit without the delimiter. *)
Theorem split_large_chunk_partitions_units (chunk : Chunk.t) (g : Uuid.t) :
  ∃ groups : list Group,
    concat (map units groups) = PyStr.split_dot_space (Chunk.content chunk) ∧
    PyStr.join ". " (concat (map units groups)) = Chunk.content chunk ∧
    Forall (λ gr, units gr ≠ []) groups ∧
    map Chunk.content (split_large_chunk self chunk g).1 = map render groups.
Proof.
  exists (split_groups self (Chunk.content chunk)).
  rewrite split_groups_units.
  split; [done |]. split; [apply join_split_dot_space |]. split.
  - eapply Forall_impl; [apply split_groups_ok |].
    intros gr. apply group_ok_units.
  - unfold split_large_chunk.
    by rewrite make_parts_content, split_contents_groups.
Qed.

Lemma render_nonempty content gr :
  (∀ u, u ∈ PyStr.split_dot_space content →
        PyStr.strip u = "" → over_budget self u = false) →
  In gr (split_groups self content) →
  render gr ≠ "".
Proof.
  intros Hblank Hin.
  pose proof (split_groups_ok content) as Hok.
  rewrite Forall_forall in Hok.
  specialize (Hok gr (proj2 (list_elem_of_In _ _) Hin)).
  destruct gr as [u | us]; simpl in *.
  - intros Hs.
    assert (Hu : u ∈ PyStr.split_dot_space content).
    { rewrite <- split_groups_units. apply list_elem_of_In.
      apply in_concat. exists [u]. split; [| by left].
      apply in_map_iff. by exists (Lone u). }
    specialize (Hblank u Hu Hs). congruence.
  - rewrite strip_empty_iff, has_ink_buffer_text; done.
Qed.

(** C8 (amended): for every segment whose stripped content is not empty
    and none of whose whitespace-only sentence units is over budget on
    its own, every chunk [process_chunk] returns, directly or through
    splitting, has non-empty content. *)
Theorem process_chunk_content_nonempty
    (seg : Seg.t) (source_url : string) (g : Uuid.t)
    (Hink : PyStr.strip (Seg.content seg) ≠ "")
    (Hblank : Forall (λ u, PyStr.strip u = "" → over_budget self u = false)
                     (PyStr.split_dot_space (PyStr.strip (Seg.content seg)))) :
  Forall (λ c, Chunk.content c ≠ "") (process_chunk self seg source_url g).1.
Proof.
  rewrite Forall_forall in Hblank.
  apply Forall_forall. intros c Hc.
  unfold process_chunk in Hc. simpl in Hc.
  destruct (over_budget self (PyStr.strip (Seg.content seg))).
  - apply list_elem_of_In in Hc.
    apply (in_map Chunk.content) in Hc.
    unfold split_large_chunk in Hc.
    rewrite make_parts_content, split_contents_groups in Hc. simpl in Hc.
    apply in_map_iff in Hc as (gr & <- & Hgr).
    by eapply render_nonempty.
  - simpl in Hc. apply list_elem_of_singleton in Hc. by subst c.
Qed.

End Splitting.

(** C2 (as stated, refuted): with a budget of 5 tokens and one token per
    character, the content "aaa. bbb" is over budget and is split into
    "aaa." and "bbb."; joined with the delimiter, with a blank, or with
    nothing, the sub-chunks do not give back the content. *)
Lemma split_large_chunk_not_exact :
  let self := char_processor 5 in
  let chunk := chunk_of "A" "aaa. bbb" in
  let contents :=
    map Chunk.content
        (ChunkProcessor.split_large_chunk self chunk counting_ids).1 in
  ChunkProcessor.over_budget self (Chunk.content chunk) = true ∧
  contents = ["aaa."; "bbb."] ∧
  PyStr.join ". " contents ≠ Chunk.content chunk ∧
  PyStr.join " " contents ≠ Chunk.content chunk ∧
  PyStr.concat contents ≠ Chunk.content chunk.
Proof. vm_compute. repeat split; discriminate. Qed.

(** C3 (violated by the code): with a budget of 8 tokens and one token per
    character, the content "aaa. bbb. c" has the units "aaa", "bbb" and
    "c", none of them over budget; the first emitted split "aaa. bbb."
    has 9 tokens, because the comparison that let "bbb" into the buffer
    was made on "aaa. bbb" (8 tokens), without the delimiter the buffer
    then receives. *)
Theorem split_flushes_buffer_over_budget :
  let self := char_processor 8 in
  let chunk := chunk_of "A" "aaa. bbb. c" in
  ChunkProcessor.over_budget self (Chunk.content chunk) = true ∧
  PyStr.split_dot_space (Chunk.content chunk) = ["aaa"; "bbb"; "c"] ∧
  Forall (λ u, ChunkProcessor.over_budget self u = false)
         (PyStr.split_dot_space (Chunk.content chunk)) ∧
  ChunkProcessor.over_budget self ("aaa. " +:+ "bbb") = false ∧
  map Chunk.content
      (ChunkProcessor.split_large_chunk self chunk counting_ids).1
  = ["aaa. bbb."; "c."] ∧
  count_tokens (ChunkProcessor.token_counter self) "aaa. bbb." = 9 ∧
  ChunkProcessor.over_budget self "aaa. bbb." = true.
Proof. vm_compute. repeat split; repeat constructor. Qed.

(** The parts of a split chunk carry the heading with a 1-based index. *)
Example split_large_chunk_headings :
  map Chunk.main_heading
      (ChunkProcessor.split_large_chunk
         (char_processor 8) (chunk_of "A" "aaa. bbb. c") counting_ids).1
  = [Some "A (Part 1)"; Some "A (Part 2)"].
Proof. reflexivity. Qed.

(** C8 (as stated, refuted): the segment of a heading that is directly
    followed by the next heading has empty content, and [process_chunk]
    returns one chunk for it, with empty content; and a whitespace-only
    unit that is over budget on its own is emitted as an empty split. *)
Lemma process_chunk_empty_content :
  let root :=
    [ {| tag := "h1"; text := Some "A"; serialized := "<h1>A</h1>" |};
      {| tag := "h2"; text := Some "B"; serialized := "<h2>B</h2>" |};
      {| tag := "p"; text := Some "text"; serialized := "<p>text</p>" |} ] in
  let seg := {| Seg.main_heading := Some "A"; Seg.content := ""; Seg.level := 1 |} in
  let blank := {| Seg.main_heading := Some "A"; Seg.content := "abc.    . d";
                  Seg.level := 1 |} in
  parse_markdown root !! 0 = Some seg ∧
  map Chunk.content
      (ChunkProcessor.process_chunk (char_processor 1200) seg
         "https://example.org/doc" counting_ids).1 = [""] ∧
  map Chunk.content
      (ChunkProcessor.process_chunk (char_processor 2) blank
         "https://example.org/doc" counting_ids).1 = ["abc"; ""; "d."].
Proof. vm_compute. repeat split. Qed.

Lemma process_chunk_content_nonempty_witness :
  let self := char_processor 8 in
  let seg := {| Seg.main_heading := Some "A"; Seg.content := " aaa. bbb. c ";
                Seg.level := 1 |} in
  PyStr.strip (Seg.content seg) ≠ "" ∧
  Forall (λ u, PyStr.strip u = "" → ChunkProcessor.over_budget self u = false)
         (PyStr.split_dot_space (PyStr.strip (Seg.content seg))) ∧
  Forall (λ c, Chunk.content c ≠ "")
         (ChunkProcessor.process_chunk self seg
            "https://example.org/doc" counting_ids).1.
Proof.
  intros self seg.
  assert (Hink : PyStr.strip (Seg.content seg) ≠ "")
    by (vm_compute; discriminate).
  assert (Hblank :
    Forall (λ u, PyStr.strip u = "" → ChunkProcessor.over_budget self u = false)
           (PyStr.split_dot_space (PyStr.strip (Seg.content seg))))
    by (vm_compute; repeat constructor; discriminate).
  split; [exact Hink |]. split; [exact Hblank |].
  exact (process_chunk_content_nonempty self seg
           "https://example.org/doc" counting_ids Hink Hblank).
Defined.

(** ** Bounded summarization *)

Section Summaries.
Import SummaryGenerator.

Lemma held_total_insert ts :
  ∀ i t t', ts !! i = Some t →
            held_total (<[i := t']> ts) + held t = held_total ts + held t'.
Proof.
  unfold held_total.
  induction ts as [| a ts IH]; intros i t t' Hi; [done |].
  destruct i as [| i]; simpl in *.
  - inversion Hi; subst. lia.
  - specialize (IH i t t' Hi). lia.
Qed.

Lemma in_flight_le_held ts :
  foldr (λ t acc, (if is_in_flight t then 1 else 0) + acc) 0 ts
  ≤ held_total ts.
Proof.
  unfold held_total, held, is_in_flight.
  induction ts as [| a ts IH]; simpl; [done |].
  destruct (pc a); lia.
Qed.

(** What an enabled event does to the task pool and the semaphore. *)
Lemma step_inv st ev st' :
  step st ev = Some st' →
  ∃ t t', tasks st !! event_task ev = Some t ∧
          tasks st' = <[event_task ev := t']> (tasks st) ∧
          value st' + held t' = value st + held t ∧
          (chunk t' = chunk t ∨ ∃ s, chunk t' = Chunk.set_summary s (chunk t)) ∧
          pc t ≠ Returned.
Proof.
  destruct ev as [i | i r | i]; simpl;
    destruct (tasks st !! i) as [t |] eqn:Ht; try done;
    destruct (pc t) eqn:Hpc; try done.
  - destruct (value st) as [| v] eqn:Hv; [done |].
    intros [= <-]. eexists t, _. simpl.
    split_and!; [done | done | | by left | congruence].
    unfold held; simpl; rewrite Hpc; lia.
  - destruct r; intros [= <-]; eexists t, _; simpl;
      (split_and!; [done | done | | by eauto | congruence]);
      unfold held; simpl; rewrite Hpc; lia.
  - intros [= <-]. eexists t, _. simpl.
    split_and!; [done | done | | by left | congruence].
    unfold held; simpl; rewrite Hpc; lia.
Qed.

Lemma step_length st ev st' :
  step st ev = Some st' → length (tasks st') = length (tasks st).
Proof.
  intros (t & t' & _ & -> & _)%step_inv. apply length_insert.
Qed.

Lemma step_slots limit st ev st' :
  step st ev = Some st' → slots_accounted limit st → slots_accounted limit st'.
Proof.
  unfold slots_accounted.
  intros (t & t' & Ht & -> & Hv & _)%step_inv Hacc.
  pose proof (held_total_insert _ _ _ t' Ht). lia.
Qed.

Lemma same_but_summary_set s c1 c2 :
  same_but_summary c1 c2 → same_but_summary c1 (Chunk.set_summary s c2).
Proof. unfold same_but_summary. destruct c2; simpl. done. Qed.

Lemma step_carries chunks st ev st' :
  step st ev = Some st' → carries chunks st → carries chunks st'.
Proof.
  unfold carries.
  intros (t & t' & Ht & -> & _ & Hc & _)%step_inv Hall.
  destruct (Forall2_lookup_r _ _ _ _ _ Hall Ht) as (c & Hci & Hct).
  rewrite <- (list_insert_id chunks (event_task ev) c Hci).
  apply Forall2_insert; [done |].
  destruct Hc as [-> | [s ->]]; [done |].
  by apply same_but_summary_set.
Qed.


(** An invariant of [step] that holds initially holds along every run. *)
Lemma steps_invariant (P : State → Prop) :
  (∀ st ev st', step st ev = Some st' → P st → P st') →
  ∀ evs st st', steps st evs = Some st' → P st → P st'.
Proof.
  intros Hstep.
  induction evs as [| ev evs IH]; intros st st' Hrun HP; simpl in Hrun.
  - by inversion Hrun; subst.
  - destruct (step st ev) as [st1 |] eqn:Hev; [| done].
    eapply IH; [exact Hrun |]. eapply Hstep; eauto.
Qed.

Lemma init_slots limit chunks : slots_accounted limit (init limit chunks).
Proof.
  unfold slots_accounted, init, held_total; simpl.
  induction chunks as [| c chunks IH]; simpl; lia.
Qed.

Lemma init_carries limit chunks : carries chunks (init limit chunks).
Proof.
  unfold carries, init; simpl.
  induction chunks as [| c chunks IH]; simpl; constructor; done.
Qed.

(** The part of the concurrency bound the semaphore does give: along
    every run of a batch, the calls in flight never exceed
    [max_concurrent_requests], and the gather keeps one task per chunk. *)
Lemma in_flight_bounded limit chunks evs st :
  steps (init limit chunks) evs = Some st →
  in_flight st ≤ limit ∧ length (tasks st) = length chunks.
Proof.
  intros Hrun. split.
  - assert (Hacc : slots_accounted limit st).
    { eapply (steps_invariant (slots_accounted limit));
        [apply step_slots | exact Hrun | apply init_slots]. }
    unfold slots_accounted in Hacc. unfold in_flight.
    pose proof (in_flight_le_held (tasks st)). lia.
  - eapply (steps_invariant (λ s, length (tasks s) = length chunks));
      [| exact Hrun |].
    + intros s ev s' Hev <-. by eapply step_length.
    + unfold init; simpl. apply length_map.
Qed.

(** A task that has returned is never resumed again. *)
Lemma step_returned st ev st' i t :
  step st ev = Some st' →
  tasks st !! i = Some t → pc t = Returned →
  tasks st' !! i = Some t.
Proof.
  intros (u & u' & Hu & -> & _ & _ & Hpc)%step_inv Hi Hret.
  destruct (decide (event_task ev = i)) as [Heq | Hne].
  - rewrite Heq, Hi in Hu. inversion Hu; subst u. done.
  - by rewrite list_lookup_insert_ne.
Qed.

Lemma steps_returned evs :
  ∀ st st' i t,
    steps st evs = Some st' →
    tasks st !! i = Some t → pc t = Returned →
    tasks st' !! i = Some t.
Proof.
  induction evs as [| ev evs IH]; intros st st' i t Hrun Hi Hret;
    simpl in Hrun.
  - by inversion Hrun; subst.
  - destruct (step st ev) as [st1 |] eqn:Hev; [| done].
    eapply IH; [exact Hrun | | exact Hret].
    eapply step_returned; eauto.
Qed.

Lemma resolve_other_exception st i st2 :
  step st (Resolve i OtherException) = Some st2 →
  ∃ t, tasks st !! i = Some t ∧ pc t = InFlight ∧
       st2 = finish st i t (Chunk.set_summary "" (chunk t))
               [ErrorProcessingChunk (Chunk.chunk_id (chunk t))].
Proof.
  simpl. destruct (tasks st !! i) as [t |]; [| done].
  destruct (pc t) eqn:Hpc; try done.
  intros [= <-]. by exists t.
Qed.

(** An event of another task that was enabled before a task finished is
    enabled afterwards: finishing only frees slots. *)
Lemma finish_keeps_enabled st i t c log ev :
  event_task ev ≠ i →
  is_Some (step st ev) → is_Some (step (finish st i t c log) ev).
Proof.
  intros Hne.
  destruct ev as [j | j r | j]; simpl in *;
    rewrite list_lookup_insert_ne by done;
    destruct (tasks st !! j) as [u |]; try done;
    destruct (pc u); try done.
  - destruct (value st); [by intros [? ?] |]. simpl. by eexists.
  - destruct r; by eexists.
Qed.

(** C7: in every run of a batch, when the call of chunk [i] ends with an
    exception other than the rate limit, the event is handled inside the
    task: the error is logged with the chunk's identifier, the other
    tasks are left as they are and every event of theirs that was
    enabled stays enabled, and whatever happens afterwards the task of
    chunk [i] has returned that chunk with an empty summary and every
    other field as it was passed in. *)
Theorem other_exception_is_contained
    (limit : nat) (chunks : list Chunk.t) (evs1 evs2 : list Event)
    (i : nat) (c : Chunk.t) (st1 st : State)
    (Hc : chunks !! i = Some c)
    (Hrun1 : steps (init limit chunks) evs1 = Some st1)
    (Hrun : steps st1 (Resolve i OtherException :: evs2) = Some st) :
  (∃ t, tasks st !! i = Some t ∧ pc t = Returned ∧
        Chunk.summary (chunk t) = "" ∧ same_but_summary c (chunk t)) ∧
  (∃ st2, step st1 (Resolve i OtherException) = Some st2 ∧
          steps st2 evs2 = Some st ∧
          (∀ j, j ≠ i → tasks st2 !! j = tasks st1 !! j) ∧
          length (tasks st2) = length chunks ∧
          value st1 < value st2 ∧
          (∀ ev, event_task ev ≠ i →
                 is_Some (step st1 ev) → is_Some (step st2 ev)) ∧
          logged st2
          = logged st1 ++ [ErrorProcessingChunk (Chunk.chunk_id c)]).
Proof.
  cbn [steps] in Hrun.
  destruct (step st1 (Resolve i OtherException)) as [st2 |] eqn:Hstep;
    [| done].
  destruct (resolve_other_exception _ _ _ Hstep) as (t1 & Ht1 & Hpc1 & ->).
  assert (Hcar : carries chunks st1).
  { eapply (steps_invariant (carries chunks));
      [apply step_carries | exact Hrun1 | apply init_carries]. }
  destruct (Forall2_lookup_l _ _ _ _ _ Hcar Hc) as (t1' & Ht1' & Hsame).
  rewrite Ht1 in Ht1'. inversion Ht1'; subst t1'. clear Ht1'.
  assert (Hlen : i < length (tasks st1)) by (by eapply lookup_lt_Some).
  split.
  - exists {| chunk := Chunk.set_summary "" (chunk t1); outer := 0;
              pc := Returned |}.
    split.
    + eapply steps_returned; [exact Hrun | | done].
      simpl. by apply list_lookup_insert_eq.
    + simpl. split_and!; [done | done |].
      by apply same_but_summary_set.
  - eexists. split; [done |]. split; [exact Hrun |]. simpl.
    split_and!.
    + intros j Hj. by apply list_lookup_insert_ne.
    + rewrite length_insert.
      by destruct (in_flight_bounded _ _ _ _ Hrun1) as [_ ->].
    + lia.
    + intros ev Hev. by apply finish_keeps_enabled.
    + destruct Hsame as (-> & _). done.
Qed.

Lemma insert_middle (done : list Task) t t' rest :
  <[length done := t']> (done ++ t :: rest) = done ++ t' :: rest.
Proof. induction done as [| a done IH]; simpl; [done | by rewrite IH]. Qed.

Lemma acquire_middle done t rest v log :
  pc t = AtSemaphore →
  step {| value := S v; tasks := done ++ t :: rest; logged := log |}
       (Acquire (length done))
  = Some {| value := v;
            tasks := done ++ {| chunk := chunk t; outer := outer t;
                                pc := InFlight |} :: rest;
            logged := log |}.
Proof.
  intros Hpc. unfold step. cbn [tasks value logged].
  rewrite list_lookup_middle by done. rewrite Hpc.
  by rewrite insert_middle.
Qed.

Lemma resolve_middle done t rest v log r :
  pc t = InFlight → r ≠ RateLimitError →
  ∃ log',
    step {| value := v; tasks := done ++ t :: rest; logged := log |}
         (Resolve (length done) r)
    = Some {| value := v + 1 + outer t;
              tasks := done ++ {| chunk := outcome r (chunk t); outer := 0;
                                  pc := Returned |} :: rest;
              logged := log' |}.
Proof.
  intros Hpc Hr. unfold step. cbn [tasks value logged].
  rewrite list_lookup_middle by done. rewrite Hpc.
  destruct r; [| done |]; unfold finish; cbn [tasks value logged outcome];
    rewrite insert_middle; by eexists.
Qed.

Lemma one_by_one_runs chunks :
  ∀ responses done v log,
    length responses = length chunks →
    Forall (λ r, r ≠ RateLimitError) responses →
    ∃ log',
      steps {| value := S v;
               tasks := done ++ map (λ c, {| chunk := c; outer := 0;
                                             pc := AtSemaphore |}) chunks;
               logged := log |}
            (one_by_one (length done) responses)
      = Some {| value := S v;
                tasks := done ++ map (λ c, {| chunk := c; outer := 0;
                                              pc := Returned |})
                                     (zip_with outcome responses chunks);
                logged := log' |}.
Proof.
  induction chunks as [| c chunks IH]; intros responses done v log Hlen Hall;
    destruct responses as [| r responses]; simpl in Hlen; try lia.
  - by exists log.
  - inversion Hall as [| ? ? Hr Hrest]; subst.
    cbn [one_by_one steps map zip_with].
    rewrite acquire_middle by done. cbn [chunk outer].
    destruct (resolve_middle done
                {| chunk := c; outer := 0; pc := InFlight |}
                (map (λ c, {| chunk := c; outer := 0; pc := AtSemaphore |})
                     chunks) v log r eq_refl Hr) as [log1 ->].
    cbn [chunk outer].
    replace (v + 1 + 0) with (S v) by lia.
    specialize (IH responses
                  (done ++ [{| chunk := outcome r c; outer := 0;
                               pc := Returned |}])
                  v log1 ltac:(lia) Hrest).
    rewrite length_app in IH. simpl in IH.
    replace (length done + 1) with (S (length done)) in IH by lia.
    rewrite <- !app_assoc in IH. simpl in IH.
    exact IH.
Qed.

(** Without rate limits every batch can run to its end when the
    semaphore has at least one slot: resumed one after the other, the
    tasks all return, each with the chunk its response makes of it, in
    the order of the input, and all slots are free again. *)
Lemma batch_completes_without_rate_limit limit chunks responses :
  0 < limit →
  length responses = length chunks →
  Forall (λ r, r ≠ RateLimitError) responses →
  ∃ st, steps (init limit chunks) (one_by_one 0 responses) = Some st ∧
        summarized_chunks st = Some (zip_with outcome responses chunks) ∧
        value st = limit.
Proof.
  intros Hlimit Hlen Hall.
  destruct limit as [| v]; [lia |].
  destruct (one_by_one_runs chunks responses [] v [] Hlen Hall) as [log' Hrun].
  eexists. split; [exact Hrun |]. split; [| done].
  unfold summarized_chunks. cbn [tasks app].
  rewrite (proj2 (forallb_forall _ _)).
  - f_equal. rewrite map_map. simpl. apply map_id.
  - intros t (c & <- & _)%in_map_iff. done.
Qed.

End Summaries.

Lemma other_exception_is_contained_witness :
  let c0 := chunk_of "A" "first" in
  let c1 := chunk_of "B" "second" in
  let evs1 := [SummaryGenerator.Acquire 0; SummaryGenerator.Acquire 1] in
  let evs2 := [SummaryGenerator.Resolve 1 (SummaryGenerator.Text "sum")] in
  ∃ st1 st,
    [c0; c1] !! 0 = Some c0 ∧
    SummaryGenerator.steps (SummaryGenerator.init 2 [c0; c1]) evs1 = Some st1 ∧
    SummaryGenerator.steps st1
      (SummaryGenerator.Resolve 0 SummaryGenerator.OtherException :: evs2)
    = Some st ∧
    (∃ t, SummaryGenerator.tasks st !! 0 = Some t ∧
          SummaryGenerator.pc t = SummaryGenerator.Returned ∧
          Chunk.summary (SummaryGenerator.chunk t) = "" ∧
          same_but_summary c0 (SummaryGenerator.chunk t)).
Proof.
  intros c0 c1 evs1 evs2.
  eexists _, _.
  assert (H0 : [c0; c1] !! 0 = Some c0) by reflexivity.
  pose (st1 := {| SummaryGenerator.value := 0;
                  SummaryGenerator.tasks :=
                    [ {| SummaryGenerator.chunk := c0; SummaryGenerator.outer := 0;
                         SummaryGenerator.pc := SummaryGenerator.InFlight |};
                      {| SummaryGenerator.chunk := c1; SummaryGenerator.outer := 0;
                         SummaryGenerator.pc := SummaryGenerator.InFlight |} ];
                  SummaryGenerator.logged := [] |}).
  assert (H1 : SummaryGenerator.steps (SummaryGenerator.init 2 [c0; c1]) evs1
               = Some st1) by reflexivity.
  assert (H2 : SummaryGenerator.steps st1
                 (SummaryGenerator.Resolve 0 SummaryGenerator.OtherException
                    :: evs2)
               = Some {| SummaryGenerator.value := 2;
                         SummaryGenerator.tasks :=
                           [ {| SummaryGenerator.chunk := Chunk.set_summary "" c0;
                                SummaryGenerator.outer := 0;
                                SummaryGenerator.pc := SummaryGenerator.Returned |};
                             {| SummaryGenerator.chunk := Chunk.set_summary "sum" c1;
                                SummaryGenerator.outer := 0;
                                SummaryGenerator.pc := SummaryGenerator.Returned |} ];
                         SummaryGenerator.logged :=
                           [ErrorProcessingChunk "0"] |}) by reflexivity.
  split; [exact H0 |]. split; [exact H1 |]. split; [exact H2 |].
  exact (proj1 (other_exception_is_contained 2 [c0; c1] evs1 evs2 0 c0 _ _
                  H0 H1 H2)).
Defined.

(** C4 (violated by the code): with [max_concurrent_requests = 1] and a
    single chunk whose first call is answered by the rate limit, the task
    keeps its slot through the back-off sleep (no slot is free while it
    sleeps), and the retry, made from inside [async with semaphore], waits
    for a second slot while the first one is still held: no event is
    enabled any more and the gather never returns. *)
Theorem retry_keeps_slot_and_blocks :
  let c := chunk_of "A" "text" in
  ∃ st1 st2,
    SummaryGenerator.steps (SummaryGenerator.init 1 [c])
      [SummaryGenerator.Acquire 0;
       SummaryGenerator.Resolve 0 SummaryGenerator.RateLimitError] = Some st1 ∧
    SummaryGenerator.tasks st1
    = [ {| SummaryGenerator.chunk := c; SummaryGenerator.outer := 0;
           SummaryGenerator.pc := SummaryGenerator.Backoff |} ] ∧
    SummaryGenerator.value st1 = 0 ∧
    SummaryGenerator.step st1 (SummaryGenerator.Wake 0) = Some st2 ∧
    SummaryGenerator.tasks st2
    = [ {| SummaryGenerator.chunk := c; SummaryGenerator.outer := 1;
           SummaryGenerator.pc := SummaryGenerator.AtSemaphore |} ] ∧
    SummaryGenerator.value st2 = 0 ∧
    (∀ ev, SummaryGenerator.step st2 ev = None) ∧
    SummaryGenerator.summarized_chunks st2 = None.
Proof.
  intros c. eexists _, _.
  split; [reflexivity |]. split; [reflexivity |]. split; [reflexivity |].
  split; [reflexivity |]. split; [reflexivity |]. split; [reflexivity |].
  split; [| reflexivity].
  intros [[| i] | [| i] r | [| i]]; reflexivity.
Qed.

(** ** Completeness validation *)

Section Validation.
Import Validator.

(** What the heading check of [validate_completeness] compares: the
    error is logged exactly when h1 + h2 differs from the length of the
    list passed as [processed_chunks]. *)
Lemma validate_completeness_mismatch original_content processed_chunks counts :
  h1 counts + h2 counts ≠ length processed_chunks ↔
  validate_completeness original_content processed_chunks counts
  = Returns [ErrorHeadingMismatch (h1 counts + h2 counts)
                                  (length processed_chunks)] false.
Proof.
  unfold validate_completeness.
  destruct (Nat.eqb_spec (h1 counts + h2 counts) (length processed_chunks))
    as [Heq | Hne]; simpl.
  - split; [done |].
    destruct (String.length original_content =? 0); [done |].
    destruct (exceeds_tolerance _ _); done.
  - done.
Qed.

(** C10: when the original content is the empty string and the heading
    count equals the number of chunks, [validate_completeness] does not
    return: the division by the original length raises
    [ZeroDivisionError], with nothing logged. *)
Theorem validate_completeness_empty_content_raises
    (original_content : string) (processed_chunks : list Chunk.t)
    (heading_counts : HeadingCounts)
    (Hempty : original_content = "")
    (Hcount : h1 heading_counts + h2 heading_counts = length processed_chunks) :
  validate_completeness original_content processed_chunks heading_counts
  = RaisesZeroDivisionError [].
Proof.
  unfold validate_completeness. subst original_content.
  rewrite Hcount, Nat.eqb_refl. done.
Qed.

(** With a non-empty original the call returns. *)
Lemma validate_completeness_returns original_content processed_chunks counts :
  original_content ≠ "" →
  ∃ logged value,
    validate_completeness original_content processed_chunks counts
    = Returns logged value.
Proof.
  intros Hne. unfold validate_completeness.
  destruct (negb _); [by eexists _, _ |].
  destruct original_content as [| a r]; [done |]. simpl.
  destruct (exceeds_tolerance _ _); by eexists _, _.
Qed.

End Validation.

Lemma validate_completeness_empty_content_raises_witness :
  Main.markdown empty_page = "" ∧
  Validator.h1 {| Validator.h1 := 0; Validator.h2 := 0 |}
  + Validator.h2 {| Validator.h1 := 0; Validator.h2 := 0 |}
  = length (@nil Chunk.t) ∧
  Main.validate empty_page [] = Validator.RaisesZeroDivisionError [].
Proof.
  split; [reflexivity |]. split; [reflexivity |].
  apply (validate_completeness_empty_content_raises
           (Main.markdown empty_page) []
           {| Validator.h1 := 0; Validator.h2 := 0 |});
    reflexivity.
Defined.

(** C1 (violated by the code): the page has one h1 heading, and
    segmentation yields one segment, so the heading count equals the
    number of chunks assembled before splitting; the segment is over
    budget and is split into two parts, and [main] hands the list returned
    by [generate_summaries], which has one entry per part, to the check:
    the mismatch error "Original: 1, Processed: 2" is logged and the
    check returns [False]. *)
Theorem completeness_check_counts_split_parts :
  let chunk_processor := char_processor 10 in
  let collector := Main.heading_collector split_page in
  let processed := (Main.processed_chunks chunk_processor split_page counting_ids).1 in
  let run :=
    [SummaryGenerator.Acquire 0; SummaryGenerator.Acquire 1;
     SummaryGenerator.Resolve 0 (SummaryGenerator.Text "first half");
     SummaryGenerator.Resolve 1 (SummaryGenerator.Text "second half")] in
  length (HeadingCollector.chunks collector) = 1 ∧
  HeadingCollector.h1_count collector + HeadingCollector.h2_count collector = 1 ∧
  map Chunk.content processed = ["<p>aaa."; "bbb</p>."] ∧
  (SummaryGenerator.steps (SummaryGenerator.init 3 processed) run
     ≫= SummaryGenerator.summarized_chunks)
  = Some (map (λ '(s, c), Chunk.set_summary s c)
              (zip ["first half"; "second half"] processed)) ∧
  (Main.validate split_page <$>
     (SummaryGenerator.steps (SummaryGenerator.init 3 processed) run
        ≫= SummaryGenerator.summarized_chunks))
  = Some (Validator.Returns [ErrorHeadingMismatch 1 2] false).
Proof. vm_compute. repeat split. Qed.

(** ** Size histogram *)

(** C9 (violated by the code): chunks of exactly 500, 1000, 1500 and 2000
    characters are counted in no range of the histogram, since the test
    [start <= size < end] excludes the end of each range and the next
    range starts one above it. *)
Theorem range_ends_are_counted_nowhere :
  Stats.size_distribution [500; 1000; 1500; 2000]
  = [("0-500", 0); ("501-1000", 0); ("1001-1500", 0); ("1501-2000", 0);
     ("2001-inf", 0)] ∧
  Forall (λ size, times_counted size = 0) range_ends.
Proof. vm_compute. repeat split; repeat constructor. Qed.

(** Every other size is counted in exactly one range. *)
Lemma times_counted_off_range_ends size :
  size ∉ range_ends → times_counted size = 1.
Proof.
  intros Hnot.
  assert (size ≠ 500 ∧ size ≠ 1000 ∧ size ≠ 1500 ∧ size ≠ 2000) as (?&?&?&?).
  { unfold range_ends in Hnot. rewrite !not_elem_of_cons in Hnot. tauto. }
  unfold times_counted, Stats.size_distribution, Stats.size_ranges.
  cbn [map foldr Stats.count_in_range]. unfold Stats.in_range.
  assert (Hcase : size < 500 ∨ 501 ≤ size < 1000 ∨ 1001 ≤ size < 1500 ∨
                  1501 ≤ size < 2000 ∨ 2001 ≤ size) by lia.
  destruct Hcase as [? | [? | [? | [? | ?]]]];
    repeat match goal with
           | |- context [?a <=? ?b] =>
               first [ rewrite (proj2 (Nat.leb_le a b)) by lia
                     | rewrite (proj2 (Nat.leb_gt a b)) by lia ]
           | |- context [?a <? ?b] =>
               first [ rewrite (proj2 (Nat.ltb_lt a b)) by lia
                     | rewrite (proj2 (Nat.ltb_ge a b)) by lia ]
           end; reflexivity.
Qed.


(** * Further properties *)

(** ** The segments of a document *)

Section Sections.
Import HeadingCollector.

Lemma walk_app self root1 root2 :
  walk self (root1 ++ root2) = walk (walk self root1) root2.
Proof. unfold walk. apply fold_left_app. Qed.

Lemma run_element_prefixed p s1 s2 e :
  prefixed p s1 s2 → prefixed p (run_element s1 e) (run_element s2 e).
Proof.
  intros [Hc Ho]. unfold prefixed, run_element, flush, append_content.
  rewrite Hc, Ho.
  destruct (is_h1h2 e); [| destruct (String.eqb (tag e) "h3")]; simpl;
    (split; [| done]); destruct (current_chunk s2);
    by rewrite <- ?app_assoc.
Qed.

Lemma walk_prefixed p root :
  ∀ s1 s2, prefixed p s1 s2 → prefixed p (walk s1 root) (walk s2 root).
Proof.
  unfold walk.
  induction root as [| e root IH]; intros s1 s2 Hp; simpl; [done |].
  apply IH, run_element_prefixed, Hp.
Qed.

Lemma prefixed_flush p s1 s2 : prefixed p s1 s2 → flush s1 = p ++ flush s2.
Proof.
  intros [Hc Ho]. unfold flush. rewrite Hc, Ho.
  destruct (current_chunk s2); by rewrite <- ?app_assoc.
Qed.

(** Emitting what a collector holds and starting afresh on a sequence
    that begins with a heading gives the same segments. *)
Lemma flush_walk_section self rest :
  starts_section rest = true →
  flush (walk self rest) = flush self ++ flush (walk init rest).
Proof.
  destruct rest as [| h rest]; simpl; intros Hh.
  - unfold flush at 3. simpl. by rewrite app_nil_r.
  - unfold walk; simpl. apply prefixed_flush, walk_prefixed.
    unfold prefixed, run_element. rewrite Hh. simpl.
    by rewrite app_nil_r.
Qed.

(** Blocks that are not level-1/2 headings only extend the open segment. *)
Lemma walk_body body :
  ∀ self c,
    Forall (λ b, is_h1h2 b = false) body →
    current_chunk self = Some c →
    chunks (walk self body) = chunks self ∧
    current_chunk (walk self body)
    = Some {| Seg.main_heading := Seg.main_heading c;
              Seg.content :=
                Seg.content c +:+ PyStr.concat (map serialized body);
              Seg.level := Seg.level c |}.
Proof.
  unfold walk.
  induction body as [| b body IH]; intros self c Hall Ho; simpl.
  - rewrite append_empty_r. by destruct c.
  - inversion Hall as [| ? ? Hb Hrest]; subst.
    edestruct (IH (run_element self b)) as [Hc' Ho']; [exact Hrest | |].
    + unfold run_element, append_content. rewrite Hb, Ho.
      destruct (String.eqb (tag b) "h3"); simpl; reflexivity.
    + rewrite Hc', Ho'. split.
      * unfold run_element. rewrite Hb.
        by destruct (String.eqb (tag b) "h3").
      * simpl. unfold PyStr.concat; simpl. by rewrite append_assoc.
Qed.

(** X1: a level-1/2 heading followed by blocks that are not level-1/2
    headings, up to the next such heading or the end of the document,
    yields exactly one segment: its heading text, its level, and the
    serialized forms of those blocks concatenated in order; the rest of
    the document is segmented as if it stood alone. *)
Theorem parse_markdown_section
    (h : Element) (body rest : list Element)
    (Hh : is_h1h2 h = true)
    (Hbody : Forall (λ b, is_h1h2 b = false) body)
    (Hrest : starts_section rest = true) :
  parse_markdown (h :: body ++ rest)
  = segment_of h body :: parse_markdown rest.
Proof.
  unfold parse_markdown, run. cbn [chunks].
  change (h :: body ++ rest) with ([h] ++ body ++ rest).
  rewrite !walk_app, (flush_walk_section _ rest Hrest).
  f_equal.
  pose (s1 := walk init [h]).
  assert (Hs1 : chunks s1 = [] ∧
                current_chunk s1
                = Some {| Seg.main_heading := text h; Seg.content := "";
                          Seg.level := if String.eqb (tag h) "h1" then 1 else 2 |}).
  { unfold s1, walk; simpl. unfold run_element. rewrite Hh. done. }
  destruct Hs1 as [Hc1 Ho1].
  destruct (walk_body body s1 _ Hbody Ho1) as [Hc2 Ho2].
  fold s1. unfold flush. rewrite Hc2, Ho2, Hc1. done.
Qed.

Lemma parse_markdown_section_witness :
  let h := {| tag := "h2"; text := Some "B"; serialized := "<h2>B</h2>" |} in
  let body := take 3 (drop 4 sample_root) in
  is_h1h2 h = true ∧
  Forall (λ b, is_h1h2 b = false) body ∧
  starts_section (take 2 (drop 1 sample_root)) = true ∧
  parse_markdown (h :: body ++ take 2 (drop 1 sample_root))
  = segment_of h body :: parse_markdown (take 2 (drop 1 sample_root)).
Proof.
  intros h body.
  assert (Hh : is_h1h2 h = true) by reflexivity.
  assert (Hbody : Forall (λ b, is_h1h2 b = false) body)
    by (repeat constructor).
  assert (Hrest : starts_section (take 2 (drop 1 sample_root)) = true)
    by reflexivity.
  split; [exact Hh |]. split; [exact Hbody |]. split; [exact Hrest |].
  exact (parse_markdown_section h body _ Hh Hbody Hrest).
Defined.

Lemma flush_headings self e :
  map (λ s, (Seg.main_heading s, Seg.level s)) (flush (run_element self e))
  = map (λ s, (Seg.main_heading s, Seg.level s)) (flush self)
    ++ (if is_h1h2 e
        then [(text e, if String.eqb (tag e) "h1" then 1 else 2)]
        else []).
Proof.
  unfold run_element, flush, append_content.
  destruct (is_h1h2 e); [| destruct (String.eqb (tag e) "h3")]; simpl;
    destruct (current_chunk self); simpl;
    rewrite ?map_app, ?app_nil_r; done.
Qed.

Lemma walk_headings root :
  ∀ self,
    map (λ s, (Seg.main_heading s, Seg.level s)) (flush (walk self root))
    = map (λ s, (Seg.main_heading s, Seg.level s)) (flush self)
      ++ map (λ e, (text e, if String.eqb (tag e) "h1" then 1 else 2))
             (List.filter is_h1h2 root).
Proof.
  unfold walk.
  induction root as [| e root IH]; intros self; simpl.
  - by rewrite app_nil_r.
  - rewrite IH, flush_headings.
    destruct (is_h1h2 e); simpl; by rewrite <- ?app_assoc, ?app_nil_r.
Qed.

(** X2: the segments of a document are its level-1/2 headings in document
    order: the heading texts and levels of the segments are those of the
    h1 and h2 blocks, one segment per heading, none reordered. *)
Theorem parse_markdown_headings_in_order (root : list Element) :
  map (λ s, (Seg.main_heading s, Seg.level s)) (parse_markdown root)
  = map (λ e, (text e, if String.eqb (tag e) "h1" then 1 else 2))
        (List.filter is_h1h2 root).
Proof.
  unfold parse_markdown, run. cbn [chunks].
  by rewrite walk_headings.
Qed.

Lemma run_element_counts self e :
  h1_count (run_element self e)
  = h1_count self + count_tag "h1" [e] ∧
  h2_count (run_element self e)
  = h2_count self + count_tag "h2" [e] ∧
  h3_count (run_element self e)
  = h3_count self + count_tag "h3" [e].
Proof.
  unfold run_element, is_h1h2, count_tag. simpl.
  destruct (String.eqb_spec (tag e) "h1") as [-> | H1]; simpl;
    [split_and!; lia |].
  destruct (String.eqb_spec (tag e) "h2") as [-> | H2]; simpl;
    [split_and!; lia |].
  destruct (String.eqb (tag e) "h3"); simpl; split_and!; lia.
Qed.

Lemma count_tag_cons name e root :
  count_tag name (e :: root) = count_tag name [e] + count_tag name root.
Proof.
  unfold count_tag. simpl. destruct (String.eqb (tag e) name); done.
Qed.

Lemma walk_counts root :
  ∀ self,
    h1_count (walk self root) = h1_count self + count_tag "h1" root ∧
    h2_count (walk self root) = h2_count self + count_tag "h2" root ∧
    h3_count (walk self root) = h3_count self + count_tag "h3" root.
Proof.
  unfold walk.
  induction root as [| e root IH]; intros self.
  - unfold count_tag; simpl. split_and!; lia.
  - cbn [fold_left].
    destruct (IH (run_element self e)) as (-> & -> & ->).
    destruct (run_element_counts self e) as (-> & -> & ->).
    rewrite !(count_tag_cons _ e root). split_and!; lia.
Qed.

(** X3: after [run] the three counters are the numbers of h1, h2 and h3
    blocks of the document; an h3 block is counted also when it stands
    before the first level-1/2 heading, where its content is dropped. *)
Theorem heading_counters_count_tags (root : list Element) :
  h1_count (run init root) = count_tag "h1" root ∧
  h2_count (run init root) = count_tag "h2" root ∧
  h3_count (run init root) = count_tag "h3" root.
Proof.
  unfold run. cbn [h1_count h2_count h3_count].
  destruct (walk_counts root init) as (-> & -> & ->). done.
Qed.

End Sections.

(** ** The chunks of a segment *)

Section Parts.
Import ChunkProcessor.
Variable self : ChunkProcessor.t.

Lemma make_parts_shape chunk splits :
  ∀ i g,
    map Chunk.main_heading (make_parts chunk i splits g).1
    = map (λ k, Some (part_heading (Chunk.main_heading chunk) k))
          (seq i (length splits)) ∧
    map Chunk.chunk_id (make_parts chunk i splits g).1
    = map (Uuid.draws g) (seq (Uuid.drawn g) (length splits)) ∧
    Forall (λ c, Chunk.source_url c = Chunk.source_url chunk ∧
                 Chunk.summary c = "")
           (make_parts chunk i splits g).1 ∧
    (make_parts chunk i splits g).2
    = {| Uuid.draws := Uuid.draws g;
         Uuid.drawn := Uuid.drawn g + length splits |}.
Proof.
  induction splits as [| s splits IH]; intros i g.
  - simpl. rewrite Nat.add_0_r. destruct g. split_and!; done.
  - cbn [make_parts Uuid.uuid4].
    specialize (IH (S i) {| Uuid.draws := Uuid.draws g;
                            Uuid.drawn := S (Uuid.drawn g) |}).
    destruct (make_parts chunk (S i) splits _) as [parts g2].
    cbn [fst snd Uuid.draws Uuid.drawn] in *.
    destruct IH as (Hh & Hid & Hall & ->).
    cbn [map length seq Chunk.main_heading Chunk.chunk_id].
    rewrite Hh, Hid. split_and!; [done | done | | f_equal; lia].
    constructor; done.
Qed.

(** X4: the parts [split_large_chunk] returns are, in order, one per
    split: the [k]-th part (from 0) has the [k]-th split as content, the
    heading of the chunk followed by " (Part k+1)", the source URL of the
    chunk, an empty summary, and the [k]-th identifier drawn by the call;
    the call draws exactly one identifier per part. *)
Theorem split_large_chunk_parts (chunk : Chunk.t) (g : Uuid.t) :
  let splits := split_contents self (Chunk.content chunk) in
  let parts := (split_large_chunk self chunk g).1 in
  map Chunk.content parts = splits ∧
  map Chunk.main_heading parts
  = map (λ k, Some (PyStr.of_option (Chunk.main_heading chunk)
                    +:+ " (Part " +:+ PyStr.of_nat (k + 1) +:+ ")"))
        (seq 0 (length splits)) ∧
  map Chunk.chunk_id parts
  = map (Uuid.draws g) (seq (Uuid.drawn g) (length splits)) ∧
  Forall (λ c, Chunk.source_url c = Chunk.source_url chunk ∧
               Chunk.summary c = "") parts ∧
  Uuid.drawn (split_large_chunk self chunk g).2
  = Uuid.drawn g + length splits.
Proof.
  intros splits parts. unfold parts, split_large_chunk. fold splits.
  destruct (make_parts_shape chunk splits 0 g) as (Hh & Hid & Hall & Hg).
  split_and!; [apply make_parts_content | exact Hh | exact Hid | exact Hall |].
  by rewrite Hg.
Qed.

Lemma split_groups_nonempty content : split_groups self content ≠ [].
Proof.
  intros Hnil.
  pose proof (split_groups_units self content) as Hu.
  rewrite Hnil in Hu. simpl in Hu.
  by apply (split_dot_space_nonempty content).
Qed.

Lemma split_contents_nonempty content : split_contents self content ≠ [].
Proof.
  rewrite split_contents_groups.
  pose proof (split_groups_nonempty content).
  destruct (split_groups self content); done.
Qed.

Lemma process_chunk_length seg url g :
  1 ≤ length (process_chunk self seg url g).1.
Proof.
  unfold process_chunk. cbn [Uuid.uuid4 Chunk.content].
  destruct (over_budget self _); [| simpl; lia].
  rewrite <- (length_map Chunk.content).
  unfold split_large_chunk. rewrite make_parts_content.
  pose proof (split_contents_nonempty (PyStr.strip (Seg.content seg))).
  destruct (split_contents self _); [done | simpl; lia].
Qed.

Lemma process_chunks_length chunks source_url :
  ∀ g,
    length chunks ≤ length (process_chunks self chunks source_url g).1 ∧
    (Forall (λ seg, over_budget self (PyStr.strip (Seg.content seg)) = false)
            chunks →
     length (process_chunks self chunks source_url g).1 = length chunks).
Proof.
  induction chunks as [| seg chunks IH]; intros g.
  - simpl. split; [lia | done].
  - cbn [process_chunks].
    pose proof (process_chunk_length seg source_url g) as H1.
    destruct (process_chunk self seg source_url g) as [cs g1] eqn:Hpc.
    specialize (IH g1).
    destruct (process_chunks self chunks source_url g1) as [more g2].
    cbn [fst length] in *. rewrite length_app. destruct IH as [IH1 IH2].
    split; [lia |].
    intros Hall. inversion Hall as [| ? ? Hseg Hrest]; subst.
    rewrite (IH2 Hrest).
    unfold process_chunk in Hpc. cbn [Uuid.uuid4 Chunk.content] in Hpc.
    rewrite Hseg in Hpc. inversion Hpc; subst. simpl. lia.
Qed.

(** X5: every segment yields at least one chunk, split or not, so the
    chunks of a page are at least as many as its segments; and when the
    stripped content of every segment is within the budget they are
    exactly as many. *)
Theorem process_chunks_at_least_one_per_segment
    (chunks : list Seg.t) (source_url : string) (g : Uuid.t) :
  length chunks ≤ length (process_chunks self chunks source_url g).1 ∧
  (Forall (λ seg, over_budget self (PyStr.strip (Seg.content seg)) = false)
          chunks →
   length (process_chunks self chunks source_url g).1 = length chunks).
Proof. apply process_chunks_length. Qed.

Lemma sublist_map {A B} (f : A → B) (l1 l2 : list A) :
  l1 `sublist_of` l2 → map f l1 `sublist_of` map f l2.
Proof. induction 1; simpl; by constructor. Qed.

(** The identifiers of the chunks of one segment are draws of the call, at
    distinct positions among the draws it made. *)
Lemma process_chunk_ids seg url g :
  ∃ idxs n,
    map Chunk.chunk_id (process_chunk self seg url g).1
    = map (Uuid.draws g) idxs ∧
    idxs `sublist_of` seq (Uuid.drawn g) n ∧
    (process_chunk self seg url g).2
    = {| Uuid.draws := Uuid.draws g; Uuid.drawn := Uuid.drawn g + n |}.
Proof.
  unfold process_chunk. cbn [Uuid.uuid4 Chunk.content].
  destruct (over_budget self _).
  - unfold split_large_chunk.
    set (chunk := {| Chunk.chunk_id := _ |}).
    set (splits := split_contents self _).
    destruct (make_parts_shape chunk splits 0
                {| Uuid.draws := Uuid.draws g;
                   Uuid.drawn := S (Uuid.drawn g) |})
      as (_ & Hid & _ & Hg).
    exists (seq (S (Uuid.drawn g)) (length splits)), (S (length splits)).
    rewrite Hid, Hg. cbn [Uuid.draws Uuid.drawn seq].
    split_and!; [done | by constructor | f_equal; lia].
  - exists [Uuid.drawn g], 1. cbn [fst snd map seq].
    split_and!; [done | done | f_equal; lia].
Qed.

Lemma process_chunks_ids chunks url :
  ∀ g, ∃ idxs n,
    map Chunk.chunk_id (process_chunks self chunks url g).1
    = map (Uuid.draws g) idxs ∧
    idxs `sublist_of` seq (Uuid.drawn g) n ∧
    (process_chunks self chunks url g).2
    = {| Uuid.draws := Uuid.draws g; Uuid.drawn := Uuid.drawn g + n |}.
Proof.
  induction chunks as [| seg chunks IH]; intros g.
  - exists [], 0. simpl. rewrite Nat.add_0_r. destruct g.
    split_and!; done.
  - cbn [process_chunks].
    destruct (process_chunk_ids seg url g) as (i1 & n1 & Hid1 & Hs1 & Hg1).
    destruct (process_chunk self seg url g) as [cs g1].
    cbn [fst snd] in *. subst g1.
    destruct (IH {| Uuid.draws := Uuid.draws g;
                    Uuid.drawn := Uuid.drawn g + n1 |})
      as (i2 & n2 & Hid2 & Hs2 & Hg2).
    destruct (process_chunks self chunks url _) as [more g2].
    cbn [fst snd Uuid.draws Uuid.drawn] in *. subst g2.
    exists (i1 ++ i2), (n1 + n2).
    rewrite !map_app, Hid1, Hid2, seq_app.
    split_and!; [done | by apply sublist_app | f_equal; lia].
Qed.

(** X6: the chunk identifiers of a page are pairwise distinct whenever the
    identifiers drawn while the page was processed are: no draw is given
    to two chunks (the draw made for a segment that is then split is given
    to none). *)
Theorem process_chunks_ids_distinct
    (chunks : list Seg.t) (source_url : string) (g : Uuid.t)
    (Hdraws :
       NoDup (map (Uuid.draws g)
                  (seq (Uuid.drawn g)
                       (Uuid.drawn (process_chunks self chunks source_url g).2
                        - Uuid.drawn g)))) :
  NoDup (map Chunk.chunk_id (process_chunks self chunks source_url g).1).
Proof.
  destruct (process_chunks_ids chunks source_url g)
    as (idxs & n & Hid & Hsub & Hg).
  rewrite Hg in Hdraws. cbn [Uuid.drawn] in Hdraws.
  replace (Uuid.drawn g + n - Uuid.drawn g) with n in Hdraws by lia.
  rewrite Hid.
  eapply sublist_NoDup; [exact Hdraws |].
  by apply sublist_map.
Qed.

End Parts.

Lemma process_chunks_ids_distinct_witness :
  let self := char_processor 10 in
  let segs := parse_markdown (Main.root split_page ++ drop 1 sample_root) in
  let out :=
    ChunkProcessor.process_chunks self segs "https://example.org/doc"
      counting_ids in
  NoDup (map (Uuid.draws counting_ids)
             (seq (Uuid.drawn counting_ids)
                  (Uuid.drawn out.2 - Uuid.drawn counting_ids))) ∧
  map Chunk.chunk_id out.1 = ["1"; "2"; "4"; "6"] ∧
  NoDup (map Chunk.chunk_id out.1).
Proof.
  intros self segs out.
  assert (Hdraws :
    NoDup (map (Uuid.draws counting_ids)
               (seq (Uuid.drawn counting_ids)
                    (Uuid.drawn out.2 - Uuid.drawn counting_ids)))).
  { apply (bool_decide_unpack _). vm_compute. exact I. }
  split; [exact Hdraws |]. split; [reflexivity |].
  exact (process_chunks_ids_distinct self segs "https://example.org/doc"
           counting_ids Hdraws).
Defined.

Section Budget.
Import ChunkProcessor.
Variable self : ChunkProcessor.t.

Lemma admitted_nil : admitted self [].
Proof. intros us' u Heq. by destruct us'. Qed.

Lemma admitted_single s : admitted self [s].
Proof.
  intros us' u Heq Hne.
  apply (app_inj_tail [] us' s u) in Heq as [<- _]. done.
Qed.

Lemma admitted_snoc current s :
  over_budget self (buffer_text current +:+ s) = false →
  admitted self (current ++ [s]).
Proof.
  intros Hin us' u Heq _.
  by apply app_inj_tail in Heq as [<- <-].
Qed.

Lemma group_sentence_checked st s :
  Forall (group_checked self) st.1 → admitted self st.2 →
  Forall (group_checked self) (group_sentence self st s).1 ∧
  admitted self (group_sentence self st s).2.
Proof.
  destruct st as [groups current]. unfold group_sentence. simpl.
  intros Hok Hcur.
  destruct (over_budget self (buffer_text current +:+ s)) eqn:Hover.
  - destruct current as [| u us]; simpl.
    + split; [| apply admitted_nil].
      apply Forall_app; split; [done |]. by apply Forall_singleton.
    + split; [| apply admitted_single].
      apply Forall_app; split; [done |]. by apply Forall_singleton.
  - simpl. split; [done | by apply admitted_snoc].
Qed.

Lemma fold_group_sentence_checked us :
  ∀ st, Forall (group_checked self) st.1 → admitted self st.2 →
        Forall (group_checked self) (fold_left (group_sentence self) us st).1 ∧
        admitted self (fold_left (group_sentence self) us st).2.
Proof.
  induction us as [| u us IH]; intros st Hok Hcur; simpl; [done |].
  destruct (group_sentence_checked st u Hok Hcur) as [Hok' Hcur'].
  by apply IH.
Qed.

Lemma split_groups_checked content :
  Forall (group_checked self) (split_groups self content).
Proof.
  unfold split_groups, close_groups.
  destruct (fold_group_sentence_checked
              (PyStr.split_dot_space content) ([], [])
              (Forall_nil_2 _) admitted_nil) as [Hok Hcur].
  destruct (fold_left (group_sentence self) _ ([], [])) as [groups current].
  simpl in *. destruct current; [done |].
  apply Forall_app; split; [done |].
  apply Forall_singleton. done.
Qed.

(** X7: what the budget comparison of [split_large_chunk] does ensure.
    The sub-chunks are the stripped texts of consecutive groups of the
    sentence units; a group is either one unit that is over budget on its
    own, or a buffer of units in which, when it holds more than one, the
    text up to and including the last unit, without the delimiter that
    follows it, is within [max_tokens]. *)
Theorem split_large_chunk_budget (chunk : Chunk.t) (g : Uuid.t) :
  ∃ groups : list Group,
    concat (map units groups) = PyStr.split_dot_space (Chunk.content chunk) ∧
    map Chunk.content (split_large_chunk self chunk g).1 = map render groups ∧
    Forall (λ gr,
              match gr with
              | Lone u => over_budget self u = true
              | Buffer us =>
                  us ≠ [] ∧
                  ∀ us' u, us = us' ++ [u] → us' ≠ [] →
                           over_budget self (buffer_text us' +:+ u) = false
              end) groups.
Proof.
  exists (split_groups self (Chunk.content chunk)).
  split; [apply split_groups_units |]. split.
  - unfold split_large_chunk.
    by rewrite make_parts_content, split_contents_groups.
  - apply split_groups_checked.
Qed.

Lemma rstrip_idempotent s : PyStr.rstrip (PyStr.rstrip s) = PyStr.rstrip s.
Proof.
  induction s as [| c r IH]; [done |]. simpl.
  destruct (PyStr.rstrip r) as [| d r'] eqn:Hr.
  - destruct (PyStr.is_space c) eqn:Hc; [done |]. simpl. by rewrite Hc.
  - simpl. simpl in IH. rewrite IH. done.
Qed.

Lemma lstrip_rstrip_lstrip s :
  PyStr.lstrip (PyStr.rstrip (PyStr.lstrip s)) = PyStr.rstrip (PyStr.lstrip s).
Proof.
  induction s as [| c r IH]; [done |]. simpl.
  destruct (PyStr.is_space c) eqn:Hc; [exact IH |].
  simpl. destruct (PyStr.rstrip r); rewrite ?Hc; simpl; by rewrite Hc.
Qed.

(** [s.strip().strip() == s.strip()] *)
Lemma strip_idempotent s : PyStr.strip (PyStr.strip s) = PyStr.strip s.
Proof.
  unfold PyStr.strip. by rewrite lstrip_rstrip_lstrip, rstrip_idempotent.
Qed.

(** X8: a segment whose stripped content is over budget but holds no
    sentence delimiter is not subdivided: [process_chunk] returns a single
    chunk with the whole stripped content, still over budget, under the
    heading "<heading> (Part 1)"; its identifier is the second draw of the
    call, the first one being discarded. *)
Theorem process_chunk_without_delimiter
    (seg : Seg.t) (source_url : string) (g : Uuid.t)
    (Hover : over_budget self (PyStr.strip (Seg.content seg)) = true)
    (Hunit : PyStr.split_dot_space (PyStr.strip (Seg.content seg))
             = [PyStr.strip (Seg.content seg)]) :
  (process_chunk self seg source_url g).1
  = [ {| Chunk.chunk_id := Uuid.draws g (S (Uuid.drawn g));
         Chunk.source_url := source_url;
         Chunk.main_heading :=
           Some (PyStr.of_option (Seg.main_heading seg) +:+ " (Part 1)");
         Chunk.content := PyStr.strip (Seg.content seg);
         Chunk.summary := "" |} ] ∧
  Uuid.drawn (process_chunk self seg source_url g).2 = Uuid.drawn g + 2.
Proof.
  unfold process_chunk. cbn [Uuid.uuid4 Chunk.content].
  rewrite Hover.
  unfold split_large_chunk, split_contents. cbn [Chunk.content].
  rewrite Hunit. cbn [fold_left]. unfold split_sentence.
  change ("" +:+ PyStr.strip (Seg.content seg))
    with (PyStr.strip (Seg.content seg)).
  rewrite Hover. cbn [PyStr.truthy app].
  rewrite strip_idempotent.
  cbn [make_parts Uuid.uuid4 fst snd Uuid.draws Uuid.drawn
       Chunk.main_heading Chunk.source_url].
  split; [reflexivity | lia].
Qed.

End Budget.

Lemma process_chunk_without_delimiter_witness :
  let self := char_processor 10 in
  let seg := {| Seg.main_heading := Some "B";
                Seg.content := "<p>text2</p><h3>C</h3><p>text3</p>";
                Seg.level := 2 |} in
  ChunkProcessor.over_budget self (PyStr.strip (Seg.content seg)) = true ∧
  PyStr.split_dot_space (PyStr.strip (Seg.content seg))
  = [PyStr.strip (Seg.content seg)] ∧
  map Chunk.main_heading
      (ChunkProcessor.process_chunk self seg "https://example.org/doc"
         counting_ids).1 = [Some "B (Part 1)"].
Proof.
  intros self seg.
  assert (Hover :
    ChunkProcessor.over_budget self (PyStr.strip (Seg.content seg)) = true)
    by reflexivity.
  assert (Hunit :
    PyStr.split_dot_space (PyStr.strip (Seg.content seg))
    = [PyStr.strip (Seg.content seg)]) by reflexivity.
  split; [exact Hover |]. split; [exact Hunit |].
  rewrite (proj1 (process_chunk_without_delimiter self seg
                    "https://example.org/doc" counting_ids Hover Hunit)).
  reflexivity.
Defined.

(** ** Validation of a page *)

Section PageValidation.
Import Validator.

Lemma exceeds_tolerance_window a b :
  exceeds_tolerance a b = true ↔ 20 * b < 19 * a ∨ 21 * a < 20 * b.
Proof.
  unfold exceeds_tolerance. rewrite Z.ltb_lt. lia.
Qed.

(** X9: the length comparison is advisory.  When the heading check
    passes and the original is not empty, [validate_completeness] returns
    [True] whatever the lengths are; it logs the warning exactly when the
    total length of the chunk contents is below 95% or above 105% of the
    length of the original (the quotient taken exactly). *)
Theorem validate_completeness_length_advisory
    (original_content : string) (processed_chunks : list Chunk.t)
    (counts : HeadingCounts)
    (Hcount : h1 counts + h2 counts = length processed_chunks)
    (Hne : original_content ≠ "") :
  let a := String.length original_content in
  let b := content_length processed_chunks in
  (20 * b < 19 * a ∨ 21 * a < 20 * b →
   validate_completeness original_content processed_chunks counts
   = Returns [WarningLengthMismatch a b] true) ∧
  (19 * a ≤ 20 * b ≤ 21 * a →
   validate_completeness original_content processed_chunks counts
   = Returns [] true).
Proof.
  intros a b. unfold validate_completeness.
  rewrite Hcount, Nat.eqb_refl. cbn [negb].
  destruct original_content as [| c r]; [done |].
  cbn [String.length Nat.eqb]. fold b.
  change (S (String.length r)) with a.
  pose proof (exceeds_tolerance_window a b) as Hw.
  destruct (exceeds_tolerance a b); split; intros H.
  - done.
  - destruct Hw as [Hw _]. specialize (Hw eq_refl). lia.
  - destruct Hw as [_ Hw]. by specialize (Hw H).
  - done.
Qed.

Lemma run_balanced root :
  length (HeadingCollector.chunks
            (HeadingCollector.run HeadingCollector.init root))
  = HeadingCollector.h1_count
      (HeadingCollector.run HeadingCollector.init root)
    + HeadingCollector.h2_count
        (HeadingCollector.run HeadingCollector.init root).
Proof.
  unfold HeadingCollector.run; simpl. rewrite flush_length.
  apply (walk_balanced root HeadingCollector.init). done.
Qed.

Lemma summarized_chunks_length limit chunks evs st sc :
  SummaryGenerator.steps (SummaryGenerator.init limit chunks) evs = Some st →
  SummaryGenerator.summarized_chunks st = Some sc →
  length sc = length chunks.
Proof.
  intros Hrun Hsc.
  destruct (in_flight_bounded _ _ _ _ Hrun) as [_ Hlen].
  unfold SummaryGenerator.summarized_chunks in Hsc.
  destruct (forallb _ _); [| done].
  inversion Hsc; subst. by rewrite length_map.
Qed.

(** X10: for every page and every run of the summarizer that returns,
    the completeness check of [main] reports the heading mismatch exactly
    when the page has more chunks than segments, that is, when splitting
    turned some segment into more than one chunk; an unsplit page never
    fails the heading check. *)
Theorem page_heading_check_fails_iff_split
    (chunk_processor : ChunkProcessor.t) (page : Main.Page) (g : Uuid.t)
    (limit : nat) (evs : list SummaryGenerator.Event)
    (st : SummaryGenerator.State) (summarized : list Chunk.t)
    (Hrun : SummaryGenerator.steps
              (SummaryGenerator.init limit
                 (Main.processed_chunks chunk_processor page g).1) evs
            = Some st)
    (Hret : SummaryGenerator.summarized_chunks st = Some summarized) :
  let segments := HeadingCollector.chunks (Main.heading_collector page) in
  let processed := (Main.processed_chunks chunk_processor page g).1 in
  length segments ≤ length processed ∧
  (length segments < length processed ↔
   Main.validate page summarized
   = Returns [ErrorHeadingMismatch (length segments) (length processed)]
             false).
Proof.
  intros segments processed.
  pose proof (summarized_chunks_length _ _ _ _ _ Hrun Hret) as Hlen.
  fold processed in Hlen.
  assert (Hseg : length segments
                 = HeadingCollector.h1_count (Main.heading_collector page)
                   + HeadingCollector.h2_count (Main.heading_collector page))
    by apply run_balanced.
  assert (Hge : length segments ≤ length processed)
    by apply process_chunks_length.
  split; [exact Hge |].
  unfold Main.validate.
  rewrite Hseg, <- Hlen.
  rewrite <- validate_completeness_mismatch. cbn [h1 h2].
  lia.
Qed.

(** X11: a page that has content but no level-1/2 heading yields no chunk
    at all, and the completeness check of [main] still returns [True]: it
    only logs the length warning, with a processed length of 0. *)
Theorem page_without_headings_passes
    (chunk_processor : ChunkProcessor.t) (page : Main.Page) (g : Uuid.t)
    (Hroot : Forall (λ b, HeadingCollector.is_h1h2 b = false) (Main.root page))
    (Hne : Main.markdown page ≠ "") :
  (Main.processed_chunks chunk_processor page g).1 = [] ∧
  Main.validate page []
  = Returns [WarningLengthMismatch (String.length (Main.markdown page)) 0]
            true.
Proof.
  assert (Hsame : same_segments
                    (HeadingCollector.walk HeadingCollector.init (Main.root page))
                    HeadingCollector.init)
    by (by apply walk_closed).
  destruct Hsame as (Hc & Ho & H1 & H2).
  split.
  - unfold Main.processed_chunks, Main.heading_collector,
      HeadingCollector.run, HeadingCollector.flush.
    cbn [HeadingCollector.chunks]. rewrite Hc, Ho. done.
  - unfold Main.validate, Main.heading_collector, HeadingCollector.run.
    cbn [HeadingCollector.h1_count HeadingCollector.h2_count].
    rewrite H1, H2. unfold validate_completeness. cbn.
    destruct (Main.markdown page) as [| c r]; [done |].
    cbn [String.length Nat.eqb].
    replace (exceeds_tolerance (S (String.length r)) 0) with true; [done |].
    symmetry. apply exceeds_tolerance_window. lia.
Qed.

End PageValidation.

Lemma validate_completeness_length_advisory_witness :
  let chunks := [chunk_of "A" "0123456789012345678"] in
  let counts := {| Validator.h1 := 1; Validator.h2 := 0 |} in
  Validator.h1 counts + Validator.h2 counts = length chunks ∧
  "01234567890123456789" ≠ "" ∧
  Validator.validate_completeness "01234567890123456789" chunks counts
  = Validator.Returns [] true ∧
  Validator.validate_completeness "01234567890123456789"
    [chunk_of "A" "012345678901234567"] counts
  = Validator.Returns [WarningLengthMismatch 20 18] true.
Proof.
  intros chunks counts.
  assert (Hcount : Validator.h1 counts + Validator.h2 counts = length chunks)
    by reflexivity.
  assert (Hne : "01234567890123456789" ≠ "") by discriminate.
  split; [exact Hcount |]. split; [exact Hne |]. split.
  - apply (validate_completeness_length_advisory
             "01234567890123456789" chunks counts Hcount Hne).
    simpl. lia.
  - reflexivity.
Defined.

Lemma page_heading_check_fails_iff_split_witness :
  let processed := (Main.processed_chunks (char_processor 10) split_page
                      counting_ids).1 in
  let run :=
    [SummaryGenerator.Acquire 0; SummaryGenerator.Acquire 1;
     SummaryGenerator.Resolve 0 (SummaryGenerator.Text "first half");
     SummaryGenerator.Resolve 1 SummaryGenerator.OtherException] in
  ∃ st summarized,
    SummaryGenerator.steps (SummaryGenerator.init 3 processed) run = Some st ∧
    SummaryGenerator.summarized_chunks st = Some summarized ∧
    length (HeadingCollector.chunks (Main.heading_collector split_page))
    ≤ length processed.
Proof.
  intros processed run.
  destruct (SummaryGenerator.steps (SummaryGenerator.init 3 processed) run)
    as [st |] eqn:Hrun; [| vm_compute in Hrun; discriminate].
  destruct (SummaryGenerator.summarized_chunks st) as [summarized |] eqn:Hret.
  - exists st, summarized.
    split; [reflexivity |]. split; [exact Hret |].
    exact (proj1 (page_heading_check_fails_iff_split
                    (char_processor 10) split_page counting_ids 3 run
                    st summarized Hrun Hret)).
  - vm_compute in Hrun. inversion Hrun; subst st.
    vm_compute in Hret. discriminate.
Defined.

Lemma page_without_headings_passes_witness :
  let page :=
    {| Main.markdown := "plain text";
       Main.sourceURL := "https://example.org/plain";
       Main.root := [ {| tag := "p"; text := Some "plain text";
                         serialized := "<p>plain text</p>" |} ] |} in
  Forall (λ b, HeadingCollector.is_h1h2 b = false) (Main.root page) ∧
  Main.markdown page ≠ "" ∧
  Main.validate page []
  = Validator.Returns [WarningLengthMismatch 10 0] true.
Proof.
  intros page.
  assert (Hroot : Forall (λ b, HeadingCollector.is_h1h2 b = false)
                         (Main.root page)) by (repeat constructor).
  assert (Hne : Main.markdown page ≠ "") by discriminate.
  split; [exact Hroot |]. split; [exact Hne |].
  exact (proj2 (page_without_headings_passes (char_processor 1200) page
                  counting_ids Hroot Hne)).
Defined.

(** ** Runs of the summarizer *)

Section Runs.
Import SummaryGenerator.

(** X12: along every run of a batch, whatever the order in which the
    event loop resumes the tasks and whatever the service answers, the
    calls in flight never exceed [max_concurrent_requests], and the free
    slots plus the slots held by tasks always add up to it. *)
Theorem in_flight_never_exceeds_limit
    (limit : nat) (chunks : list Chunk.t) (evs : list Event) (st : State)
    (Hrun : steps (init limit chunks) evs = Some st) :
  in_flight st ≤ limit ∧ value st + held_total (tasks st) = limit.
Proof.
  split; [by eapply in_flight_bounded |].
  eapply (steps_invariant (slots_accounted limit));
    [apply step_slots | exact Hrun | apply init_slots].
Qed.

Lemma step_unwound st ev st' : step st ev = Some st' → unwound st → unwound st'.
Proof.
  unfold unwound.
  destruct ev as [i | i r | i]; simpl;
    destruct (tasks st !! i) as [t |] eqn:Ht; try done;
    destruct (pc t) eqn:Hpc; try done.
  - destruct (value st); [done |]. intros [= <-] Hall. simpl.
    apply Forall_insert; [done | done].
  - destruct r; intros [= <-] Hall; simpl;
      apply Forall_insert; done.
  - intros [= <-] Hall. simpl. apply Forall_insert; done.
Qed.

Lemma held_total_returned ts :
  Forall (λ t, pc t = Returned → outer t = 0) ts →
  forallb is_returned ts = true →
  held_total ts = 0.
Proof.
  unfold held_total, held, is_returned.
  induction ts as [| t ts IH]; intros Hall Hret; simpl in *; [done |].
  inversion Hall as [| ? ? Ht Hrest]; subst.
  apply andb_prop in Hret as [Hpc Hret].
  rewrite (IH Hrest Hret).
  destruct (pc t); try done. rewrite Ht; done.
Qed.

Lemma in_flight_returned ts :
  forallb is_returned ts = true →
  foldr (λ t acc, (if is_in_flight t then 1 else 0) + acc) 0 ts = 0.
Proof.
  unfold is_returned, is_in_flight.
  induction ts as [| t ts IH]; intros Hret; simpl in *; [done |].
  apply andb_prop in Hret as [Hpc Hret].
  rewrite (IH Hret). by destruct (pc t).
Qed.

Lemma carries_chunks chunks ts :
  Forall2 (λ c t, same_but_summary c (chunk t)) chunks ts →
  Forall2 same_but_summary chunks (map chunk ts).
Proof. induction 1; simpl; by constructor. Qed.

(** X13: in every run, once every task has returned, what the gather
    hands back is the input in its order: one chunk per input chunk, with
    the same identifier, source URL, heading and content (only the
    summary may differ); by then no call is in flight and every slot of
    the semaphore is free again. *)
Theorem generate_summaries_result
    (limit : nat) (chunks : list Chunk.t) (evs : list Event) (st : State)
    (summarized : list Chunk.t)
    (Hrun : steps (init limit chunks) evs = Some st)
    (Hret : summarized_chunks st = Some summarized) :
  Forall2 same_but_summary chunks summarized ∧
  in_flight st = 0 ∧
  value st = limit.
Proof.
  unfold summarized_chunks in Hret.
  destruct (forallb is_returned (tasks st)) eqn:Hall; [| done].
  inversion Hret; subst summarized.
  split_and!.
  - apply carries_chunks.
    eapply (steps_invariant (carries chunks));
      [apply step_carries | exact Hrun | apply init_carries].
  - by apply in_flight_returned.
  - assert (Hacc : slots_accounted limit st).
    { eapply (steps_invariant (slots_accounted limit));
        [apply step_slots | exact Hrun | apply init_slots]. }
    assert (Hun : unwound st).
    { eapply (steps_invariant unwound);
        [apply step_unwound | exact Hrun |].
      unfold unwound, init; simpl.
      apply Forall_forall. intros t (c & <- & _)%list_elem_of_In%in_map_iff.
      done. }
    unfold slots_accounted in Hacc.
    rewrite (held_total_returned _ Hun Hall) in Hacc. lia.
Qed.





End Runs.

Lemma in_flight_never_exceeds_limit_witness :
  let chunks := [chunk_of "A" "first"; chunk_of "B" "second";
                 chunk_of "C" "third"] in
  let evs := [SummaryGenerator.Acquire 2; SummaryGenerator.Acquire 0;
              SummaryGenerator.Resolve 2 SummaryGenerator.RateLimitError] in
  ∃ st,
    SummaryGenerator.steps (SummaryGenerator.init 2 chunks) evs = Some st ∧
    SummaryGenerator.in_flight st = 1 ∧
    SummaryGenerator.value st = 0 ∧
    SummaryGenerator.in_flight st ≤ 2.
Proof.
  intros chunks evs. eexists.
  assert (Hrun : SummaryGenerator.steps (SummaryGenerator.init 2 chunks) evs
                 = Some _) by reflexivity.
  split; [exact Hrun |]. split; [reflexivity |]. split; [reflexivity |].
  exact (proj1 (in_flight_never_exceeds_limit 2 chunks evs _ Hrun)).
Defined.

Lemma generate_summaries_result_witness :
  let chunks := [chunk_of "A" "first"; chunk_of "B" "second"] in
  let evs := [SummaryGenerator.Acquire 1;
              SummaryGenerator.Resolve 1 (SummaryGenerator.Text "two");
              SummaryGenerator.Acquire 0;
              SummaryGenerator.Resolve 0 SummaryGenerator.RateLimitError;
              SummaryGenerator.Wake 0; SummaryGenerator.Acquire 0;
              SummaryGenerator.Resolve 0 (SummaryGenerator.Text "one")] in
  let summarized := [Chunk.set_summary "one" (chunk_of "A" "first");
                     Chunk.set_summary "two" (chunk_of "B" "second")] in
  ∃ st,
    SummaryGenerator.steps (SummaryGenerator.init 2 chunks) evs = Some st ∧
    SummaryGenerator.summarized_chunks st = Some summarized ∧
    Forall2 same_but_summary chunks summarized ∧
    SummaryGenerator.in_flight st = 0 ∧
    SummaryGenerator.value st = 2.
Proof.
  intros chunks evs summarized.
  pose (st := {| SummaryGenerator.value := 2;
                 SummaryGenerator.tasks :=
                   map (λ c, {| SummaryGenerator.chunk := c;
                                SummaryGenerator.outer := 0;
                                SummaryGenerator.pc := SummaryGenerator.Returned |})
                       summarized;
                 SummaryGenerator.logged := [] |}).
  exists st.
  assert (Hrun : SummaryGenerator.steps (SummaryGenerator.init 2 chunks) evs
                 = Some st) by reflexivity.
  assert (Hret : SummaryGenerator.summarized_chunks st = Some summarized)
    by reflexivity.
  split; [exact Hrun |]. split; [exact Hret |].
  exact (generate_summaries_result 2 chunks evs st summarized Hrun Hret).
Defined.


(** X15: when no call is answered by the rate limit and the semaphore has
    at least one slot, the batch can run to its end: resuming the tasks
    one after the other, every task returns, the result lists the chunks
    in the order of the input, each with the summary of its response, or
    with the empty summary when its call failed, and all slots are free
    afterwards. *)
Theorem batch_returns_without_rate_limit
    (limit : nat) (chunks : list Chunk.t)
    (responses : list SummaryGenerator.Response)
    (Hlimit : 0 < limit)
    (Hlen : length responses = length chunks)
    (Hall : Forall (λ r, r ≠ SummaryGenerator.RateLimitError) responses) :
  ∃ st,
    SummaryGenerator.steps (SummaryGenerator.init limit chunks)
      (one_by_one 0 responses) = Some st ∧
    SummaryGenerator.summarized_chunks st
    = Some (zip_with outcome responses chunks) ∧
    SummaryGenerator.value st = limit.
Proof. by apply batch_completes_without_rate_limit. Qed.

Lemma batch_returns_without_rate_limit_witness :
  let chunks := [chunk_of "A" "first"; chunk_of "B" "second"] in
  let responses := [SummaryGenerator.OtherException;
                    SummaryGenerator.Text "two"] in
  0 < 1 ∧
  length responses = length chunks ∧
  Forall (λ r, r ≠ SummaryGenerator.RateLimitError) responses ∧
  ∃ st,
    SummaryGenerator.steps (SummaryGenerator.init 1 chunks)
      (one_by_one 0 responses) = Some st ∧
    SummaryGenerator.summarized_chunks st
    = Some [Chunk.set_summary "" (chunk_of "A" "first");
            Chunk.set_summary "two" (chunk_of "B" "second")] ∧
    SummaryGenerator.value st = 1.
Proof.
  intros chunks responses.
  assert (Hlimit : 0 < 1) by lia.
  assert (Hlen : length responses = length chunks) by reflexivity.
  assert (Hall : Forall (λ r, r ≠ SummaryGenerator.RateLimitError) responses)
    by (repeat constructor; discriminate).
  split; [exact Hlimit |]. split; [exact Hlen |]. split; [exact Hall |].
  exact (batch_returns_without_rate_limit 1 chunks responses
           Hlimit Hlen Hall).
Defined.

(** ** The size histogram as a whole *)

Lemma histogram_total_cons size sizes :
  histogram_total (size :: sizes) = times_counted size + histogram_total sizes.
Proof.
  unfold histogram_total, times_counted, Stats.size_distribution,
    Stats.size_ranges, Stats.count_in_range.
  cbn [map foldr]. lia.
Qed.

Lemma times_counted_range_end size : size ∈ range_ends → times_counted size = 0.
Proof.
  unfold range_ends. rewrite !elem_of_cons, elem_of_nil.
  intros [-> | [-> | [-> | [-> | []]]]]; reflexivity.
Qed.

(** X16: the counts of the histogram add up to the number of chunks whose
    size is not 500, 1000, 1500 or 2000: every other size is counted in
    exactly one range, so the histogram accounts for all chunks exactly
    when no chunk has one of these four sizes. *)
Theorem histogram_counts_all_but_range_ends (chunk_sizes : list nat) :
  histogram_total chunk_sizes
  = length (filter (λ size, size ∉ range_ends) chunk_sizes) ∧
  histogram_total chunk_sizes ≤ length chunk_sizes.
Proof.
  induction chunk_sizes as [| size sizes [IH1 IH2]]; [done |].
  rewrite histogram_total_cons, filter_cons.
  destruct (decide (size ∉ range_ends)) as [Hnot | Hin].
  - rewrite (times_counted_off_range_ends size Hnot). simpl. lia.
  - apply dec_stable in Hin.
    rewrite (times_counted_range_end size Hin). simpl. lia.
Qed.

(** ** The conversation history of the assistant *)

Section History.
Import ClaudeAssistant.

(** X17: [get_recent_context] with [n_messages >= 1] returns the last
    [n_messages] messages of the history, or the whole history when it is
    shorter; with [n_messages = 0] it returns the whole history, not the
    empty list; with a negative [n_messages] it drops the first
    [-n_messages] messages. *)
Theorem get_recent_context_slice
    (conversation_history : list Message) (n_messages : Z) :
  ((0 < n_messages)%Z →
   get_recent_context conversation_history n_messages
   = drop (length conversation_history - Z.to_nat n_messages)
          conversation_history ∧
   length (get_recent_context conversation_history n_messages)
   = Nat.min (Z.to_nat n_messages) (length conversation_history)) ∧
  (n_messages = 0%Z →
   get_recent_context conversation_history n_messages
   = conversation_history) ∧
  ((n_messages < 0)%Z →
   get_recent_context conversation_history n_messages
   = drop (Z.to_nat (- n_messages)) conversation_history).
Proof.
  unfold get_recent_context, slice_from.
  split_and!.
  - intros Hn.
    destruct (Z.ltb_spec (- n_messages) 0) as [_ | ?]; [| lia].
    replace (Z.to_nat (Z.max 0 (- n_messages
                                + Z.of_nat (length conversation_history))))
      with (length conversation_history - Z.to_nat n_messages) by lia.
    split; [done |]. rewrite length_drop. lia.
  - intros ->. simpl.
    replace (Z.to_nat (Z.min (- 0) (Z.of_nat (length conversation_history))))
      with 0 by lia.
    done.
  - intros Hn.
    destruct (Z.ltb_spec (- n_messages) 0) as [? | _]; [lia |].
    destruct (Z.min_spec (- n_messages)
                (Z.of_nat (length conversation_history)))
      as [[_ ->] | [Hle ->]]; [done |].
    rewrite Nat2Z.id.
    rewrite !drop_ge; [done | lia | lia].
Qed.

Lemma record_exchanges_messages exchanges :
  ∀ h, record_exchanges h exchanges = h ++ messages_of exchanges.
Proof.
  unfold record_exchanges.
  induction exchanges as [| [u a] exchanges IH]; intros h; simpl.
  - by rewrite app_nil_r.
  - rewrite IH. unfold update_conversation_history.
    by rewrite <- !app_assoc.
Qed.

Lemma messages_of_length exchanges :
  length (messages_of exchanges) = 2 * length exchanges.
Proof.
  induction exchanges as [| [u a] exchanges IH]; simpl; [done |].
  rewrite IH. lia.
Qed.

Lemma drop_messages_of j :
  ∀ exchanges,
    drop (2 * j) (messages_of exchanges) = messages_of (drop j exchanges).
Proof.
  induction j as [| j IH]; intros exchanges; [done |].
  destruct exchanges as [| [u a] exchanges]; [done |].
  replace (2 * S j) with (S (S (2 * j))) by lia.
  simpl. apply IH.
Qed.

(** X18: a history that [update_conversation_history] has built from the
    empty list holds two messages per exchange, the user input followed
    by the response; on it the default [get_recent_context()] returns the
    messages of the last three exchanges, three from the user and three
    from the assistant in alternation, as its docstring says, or the
    whole history when there were fewer than three exchanges. *)
Theorem recent_context_is_last_three_exchanges
    (exchanges : list (string * string)) :
  record_exchanges [] exchanges = messages_of exchanges ∧
  length (record_exchanges [] exchanges) = 2 * length exchanges ∧
  get_recent_context (record_exchanges [] exchanges) 6
  = messages_of (drop (length exchanges - 3) exchanges).
Proof.
  rewrite record_exchanges_messages. cbn [app].
  split; [done |]. split; [apply messages_of_length |].
  unfold get_recent_context, slice_from.
  rewrite messages_of_length.
  change (- (6) <? 0)%Z with true. cbv iota.
  replace (Z.to_nat (Z.max 0 (- (6) + Z.of_nat (2 * length exchanges))))
    with (2 * (length exchanges - 3)) by lia.
  apply drop_messages_of.
Qed.

Lemma first_chars_length n : ∀ s, String.length (first_chars n s) ≤ n.
Proof.
  induction n as [| n IH]; intros s; [done |].
  destruct s as [| c r]; simpl; [lia |].
  specialize (IH r). lia.
Qed.

Lemma first_chars_short n : ∀ s, String.length s ≤ n → first_chars n s = s.
Proof.
  induction n as [| n IH]; intros s Hlen.
  - destruct s; [done | simpl in Hlen; lia].
  - destruct s as [| c r]; [done |]. simpl in *.
    rewrite IH; [done | lia].
Qed.

Lemma append_length s1 s2 :
  String.length (s1 +:+ s2) = String.length s1 + String.length s2.
Proof.
  induction s1 as [| c s1 IH]; [done |].
  rewrite append_cons. simpl. by rewrite IH.
Qed.

Lemma join_length_bound sep bound parts :
  Forall (λ p, String.length p ≤ bound) parts →
  String.length (PyStr.join sep parts)
  ≤ length parts * bound + (length parts - 1) * String.length sep.
Proof.
  induction 1 as [| p parts Hp Hall IH]; [simpl; lia |].
  destruct parts as [| q parts].
  - simpl. lia.
  - change (PyStr.join sep (p :: q :: parts))
      with (p +:+ sep +:+ PyStr.join sep (q :: parts)).
    rewrite !append_length. cbn [length Nat.mul Nat.sub] in *. lia.
Qed.

(** X19: the content sample that [generate_document_summary] puts into
    its prompt has at most 2508 characters, however many chunks there are
    and however long they are; when there are at most five chunks of at
    most 500 characters each, it is their texts joined by blank lines,
    nothing cut. *)
Theorem content_sample_bounded (texts : list string) :
  String.length (content_sample texts) ≤ 2508 ∧
  (length texts ≤ 5 →
   Forall (λ text, String.length text ≤ 500) texts →
   content_sample texts = PyStr.join blank_line texts).
Proof.
  unfold content_sample. split.
  - pose proof (join_length_bound blank_line 500
                  (map (first_chars 500) (take 5 texts))) as H.
    rewrite length_map, length_take in H.
    change (String.length blank_line) with 2 in H.
    set (n := 5 `min` length texts) in H.
    assert (n ≤ 5) by (unfold n; lia).
    assert (Hall : Forall (λ p, String.length p ≤ 500)
                          (map (first_chars 500) (take 5 texts))).
    { apply Forall_forall.
      intros p (t & <- & _)%list_elem_of_In%in_map_iff.
      apply first_chars_length. }
    specialize (H Hall). lia.
  - intros Hlen Hall.
    rewrite take_ge by done.
    f_equal. induction Hall as [| t texts' Ht Hall IH]; [done |].
    cbn [map]. rewrite first_chars_short by done.
    f_equal. apply IH. cbn [length] in Hlen. lia.
Qed.

End History.
